(** * core-js-101, src/06-objects-tasks.js

    A shallow embedding of [Rectangle] and of the CSS selector builder
    ([class CssBuilder] and the [cssSelectorBuilder] facade), and the
    properties of the builder's ordering rules, rendering and combinators.

    JavaScript strings are [string], and the arguments of the category
    methods and the combinator are strings, as the facade documents them;
    the numeric rank kept in [this.type] is a [Z]; every [CssBuilder]
    instance lives in a store of objects and is denoted by its address, so
    that a builder reached through two names is one object. *)

From Stdlib Require Import ZArith Bool Lia.
From stdpp Require Import base list strings.

Local Open Scope Z_scope.

(** ** Rectangle *)

(** [Rectangle(width, height)] returns an object literal with two data
    properties and one method.  The operands of the method are whatever
    values the caller passed, and [*] is the language's multiplication;
    both are kept abstract. *)
Section Rectangle.
Variable number : Type.
Variable times : number -> number -> number.

Record RectangleObject := mkRectangle {
  width : number;
  height : number
}.

Definition Rectangle (w h : number) : RectangleObject :=
  {| width := w; height := h |}.

(** [getArea() { return this.width * this.height; }] *)
Definition getArea (this : RectangleObject) : number :=
  times (width this) (height this).
End Rectangle.

Arguments width {number} _.
Arguments height {number} _.
Arguments Rectangle {number} w h.
Arguments getArea {number} times this.

(** ** Completions and the object-level monad *)

(** A call either returns a value or throws; [CssBuilder] throws strings. *)
Inductive completion (A : Type) : Type :=
  | Normal (a : A)
  | Throw (e : string).
Arguments Normal {A} a.
Arguments Throw {A} e.

(** The state of one [CssBuilder] instance. *)

(** [this.el]: an object literal whose own keys are, in creation order,
    tag, id, class, attr, pseudoClass, pseudoElement. *)
Record El := mkEl {
  el_tag : string;
  el_id : string;
  el_class : string;
  el_attr : string;
  el_pseudoClass : string;
  el_pseudoElement : string
}.

Record CssBuilder := mkCssBuilder {
  el : El;
  type : Z;
  uniqueError : string;
  orderError : string;
  combinedString : string
}.

(** A method body running on [this]: it may read and write the fields of
    [this], and ends by returning or by throwing.  The object as it is at
    the moment of the throw is part of the outcome: nothing is undone. *)
Definition M (A : Type) : Type := CssBuilder -> completion A * CssBuilder.

Definition ret {A} (a : A) : M A := fun this => (Normal a, this).

Definition throw {A} (e : string) : M A := fun this => (Throw e, this).

Definition bind {A B} (m : M A) (k : A -> M B) : M B :=
  fun this =>
    match m this with
    | (Normal a, this') => k a this'
    | (Throw e, this') => (Throw e, this')
    end.

Definition get {A} (f : CssBuilder -> A) : M A := fun this => (Normal (f this), this).

Definition modify (f : CssBuilder -> CssBuilder) : M unit :=
  fun this => (Normal tt, f this).

Declare Scope method_scope.
Delimit Scope method_scope with method.
Notation "x <- m ;; k" := (bind m (fun x => k))
  (at level 100, m at next level, right associativity) : method_scope.
Notation "m ;; k" := (bind m (fun _ => k))
  (at level 100, right associativity) : method_scope.

(** Field writes. *)
Definition set_el (e : El) (b : CssBuilder) : CssBuilder :=
  {| el := e; type := type b; uniqueError := uniqueError b;
     orderError := orderError b; combinedString := combinedString b |}.

Definition set_type (t : Z) (b : CssBuilder) : CssBuilder :=
  {| el := el b; type := t; uniqueError := uniqueError b;
     orderError := orderError b; combinedString := combinedString b |}.

Definition set_combinedString (s : string) (b : CssBuilder) : CssBuilder :=
  {| el := el b; type := type b; uniqueError := uniqueError b;
     orderError := orderError b; combinedString := s |}.

Definition set_tag (s : string) (e : El) : El :=
  {| el_tag := s; el_id := el_id e; el_class := el_class e; el_attr := el_attr e;
     el_pseudoClass := el_pseudoClass e; el_pseudoElement := el_pseudoElement e |}.

Definition set_id (s : string) (e : El) : El :=
  {| el_tag := el_tag e; el_id := s; el_class := el_class e; el_attr := el_attr e;
     el_pseudoClass := el_pseudoClass e; el_pseudoElement := el_pseudoElement e |}.

Definition set_class (s : string) (e : El) : El :=
  {| el_tag := el_tag e; el_id := el_id e; el_class := s; el_attr := el_attr e;
     el_pseudoClass := el_pseudoClass e; el_pseudoElement := el_pseudoElement e |}.

Definition set_attr (s : string) (e : El) : El :=
  {| el_tag := el_tag e; el_id := el_id e; el_class := el_class e; el_attr := s;
     el_pseudoClass := el_pseudoClass e; el_pseudoElement := el_pseudoElement e |}.

Definition set_pseudoClass (s : string) (e : El) : El :=
  {| el_tag := el_tag e; el_id := el_id e; el_class := el_class e; el_attr := el_attr e;
     el_pseudoClass := s; el_pseudoElement := el_pseudoElement e |}.

Definition set_pseudoElement (s : string) (e : El) : El :=
  {| el_tag := el_tag e; el_id := el_id e; el_class := el_class e; el_attr := el_attr e;
     el_pseudoClass := el_pseudoClass e; el_pseudoElement := s |}.

(** [Object.values(this.el)]: the values in key creation order. *)
Definition Object_values (e : El) : list string :=
  [el_tag e; el_id e; el_class e; el_attr e; el_pseudoClass e; el_pseudoElement e].

(** [Array.prototype.join] on an array of strings. *)
Definition join (sep : string) (l : list string) : string := String.concat sep l.

(** [Object.keys(this.el).forEach((key) => { this.el[key] = ''; })] *)
Definition clear_keys (e : El) : El :=
  set_pseudoElement ""
    (set_pseudoClass "" (set_attr "" (set_class "" (set_id "" (set_tag "" e))))).

(** Truthiness of a string: only the empty string is falsy. *)
Definition truthy (s : string) : bool :=
  match s with
  | EmptyString => false
  | String _ _ => true
  end.

(** [[1, 2, 6].includes(type)] *)
Definition includes (l : list Z) (x : Z) : bool := existsb (Z.eqb x) l.

(** ** class CssBuilder *)

(** [constructor()] *)
Definition new_CssBuilder : CssBuilder :=
  {| el := {| el_tag := ""; el_id := ""; el_class := ""; el_attr := "";
              el_pseudoClass := ""; el_pseudoElement := "" |};
     type := 0;
     uniqueError := "Element, id and pseudo-element should not occur more then one time inside the selector";
     orderError := "Selector parts should be arranged in the following order: "
       +:+ "element, id, class, attribute, pseudo-class, pseudo-element";
     combinedString := "" |}.

Section Methods.
Local Open Scope method_scope.

(** [checkType(type)] *)
Definition checkType (ty : Z) : M unit :=
  this_type <- get type ;;
  if ty <? this_type then
    e <- get orderError ;; throw e
  else if (ty =? this_type) && includes [1; 2; 6] ty then
    e <- get uniqueError ;; throw e
  else
    modify (set_type ty).

(** The six category methods.  Each one ends with [return this]; [send],
    below, returns the address the method was called on. *)
Definition element (value : string) : M unit :=
  checkType 1 ;;
  modify (fun this => set_el (set_tag value (el this)) this).

Definition id (value : string) : M unit :=
  checkType 2 ;;
  modify (fun this => set_el (set_id ("#" +:+ value) (el this)) this).

Definition class (value : string) : M unit :=
  checkType 3 ;;
  modify (fun this => set_el (set_class (el_class (el this) +:+ "." +:+ value) (el this)) this).

Definition attr (value : string) : M unit :=
  checkType 4 ;;
  modify (fun this =>
    set_el (set_attr (el_attr (el this) +:+ "[" +:+ value +:+ "]") (el this)) this).

Definition pseudoClass (value : string) : M unit :=
  checkType 5 ;;
  modify (fun this =>
    set_el (set_pseudoClass (el_pseudoClass (el this) +:+ ":" +:+ value) (el this)) this).

Definition pseudoElement (value : string) : M unit :=
  checkType 6 ;;
  modify (fun this =>
    set_el (set_pseudoElement (el_pseudoElement (el this) +:+ "::" +:+ value) (el this)) this).

(** [stringify()] *)
Definition stringify : M string :=
  cs <- get combinedString ;;
  if truthy cs then
    modify (set_combinedString "") ;;
    ret cs
  else
    res <- get (fun this => join "" (Object_values (el this))) ;;
    modify (fun this => set_el (clear_keys (el this)) this) ;;
    ret res.
End Methods.

(** ** The store of builder objects *)

(** Builders are mutable objects: a variable or an argument holds the
    address of one.  The store lists the objects allocated so far;
    [new CssBuilder()] allocates at the next free address. *)
Abbreviation loc := nat.

Abbreviation store := (list CssBuilder).

(** A program over the store.  [None] stands for a call through an address
    that was never allocated, which no JavaScript program can form. *)
Definition Prog (A : Type) : Type := store -> option (completion A * store).

Definition pret {A} (a : A) : Prog A := fun h => Some (Normal a, h).

Definition pbind {A B} (p : Prog A) (k : A -> Prog B) : Prog B :=
  fun h =>
    match p h with
    | Some (Normal a, h') => k a h'
    | Some (Throw e, h') => Some (Throw e, h')
    | None => None
    end.

Declare Scope prog_scope.
Delimit Scope prog_scope with prog.
Notation "x <- p ;; k" := (pbind p (fun x => k))
  (at level 100, p at next level, right associativity) : prog_scope.
Notation "p ;; k" := (pbind p (fun _ => k))
  (at level 100, right associativity) : prog_scope.

(** [new CssBuilder()] *)
Definition new : Prog loc :=
  fun h => Some (Normal (length h), h ++ [new_CssBuilder]).

(** [r.m(...)]: run the method body [m] with [this] bound to the object at
    [r], and write the object back, also when the body throws. *)
Definition call {A} (r : loc) (m : M A) : Prog A :=
  fun h =>
    match h !! r with
    | Some this => let (c, this') := m this in Some (c, <[r := this']> h)
    | None => None
    end.

Section StoreMethods.
Local Open Scope prog_scope.

(** A method whose body ends with [return this]. *)
Definition send (r : loc) (m : M unit) : Prog loc :=
  call r m ;; pret r.

(** [combine(selector1, combinator, selector2)], a method of the builder at
    [this]: the template literal renders [selector1], then [selector2]. *)
Definition combine (this selector1 : loc) (combinator : string) (selector2 : loc) : Prog loc :=
  s1 <- call selector1 stringify ;;
  s2 <- call selector2 stringify ;;
  call this (modify (set_combinedString (s1 +:+ " " +:+ combinator +:+ " " +:+ s2))) ;;
  pret this.

End StoreMethods.

(** ** The facade *)

Module cssSelectorBuilder.
Local Open Scope prog_scope.

Definition element (val : string) : Prog loc := r <- new ;; send r (element val).

Definition id (val : string) : Prog loc := r <- new ;; send r (id val).

Definition class (val : string) : Prog loc := r <- new ;; send r (class val).

Definition attr (val : string) : Prog loc := r <- new ;; send r (attr val).

Definition pseudoClass (val : string) : Prog loc := r <- new ;; send r (pseudoClass val).

Definition pseudoElement (val : string) : Prog loc := r <- new ;; send r (pseudoElement val).

Definition combine (string1 : loc) (combinator : string) (string2 : loc) : Prog loc :=
  r <- new ;; combine r string1 combinator string2.

End cssSelectorBuilder.

(** ** Chains of category calls *)

(** One call of a category method, with its argument. *)
Inductive category_call : Type :=
  | Element (value : string)
  | Id (value : string)
  | Class (value : string)
  | Attr (value : string)
  | PseudoClass (value : string)
  | PseudoElement (value : string).

(** The rank each method passes to [checkType]. *)
Definition rank (c : category_call) : Z :=
  match c with
  | Element _ => 1
  | Id _ => 2
  | Class _ => 3
  | Attr _ => 4
  | PseudoClass _ => 5
  | PseudoElement _ => 6
  end.

(** The method a call stands for. *)
Definition perform (c : category_call) : M unit :=
  match c with
  | Element v => element v
  | Id v => id v
  | Class v => class v
  | Attr v => attr v
  | PseudoClass v => pseudoClass v
  | PseudoElement v => pseudoElement v
  end.

(** [b.m1(v1).m2(v2)...] on one builder. *)
Fixpoint chain (cs : list category_call) : M unit :=
  match cs with
  | [] => ret tt
  | c :: cs' => bind (perform c) (fun _ => chain cs')
  end.

(** What a successful call writes into [this.el]. *)
Definition write (c : category_call) (e : El) : El :=
  match c with
  | Element v => set_tag v e
  | Id v => set_id ("#" +:+ v) e
  | Class v => set_class (el_class e +:+ "." +:+ v) e
  | Attr v => set_attr (el_attr e +:+ "[" +:+ v +:+ "]") e
  | PseudoClass v => set_pseudoClass (el_pseudoClass e +:+ ":" +:+ v) e
  | PseudoElement v => set_pseudoElement (el_pseudoElement e +:+ "::" +:+ v) e
  end.

(** The single-occurrence ranks: element, id, pseudo-element. *)
Definition single (r : Z) : Prop := r = 1 \/ r = 2 \/ r = 6.

(** The all-empty [el] of a fresh or a rendered builder. *)
Definition empty_el : El :=
  {| el_tag := ""; el_id := ""; el_class := ""; el_attr := "";
     el_pseudoClass := ""; el_pseudoElement := "" |}.

(** ** Rendering as the specification words it *)

(** The text one call contributes to the selector. *)
Definition part (c : category_call) : string :=
  match c with
  | Element v => v
  | Id v => "#" +:+ v
  | Class v => "." +:+ v
  | Attr v => "[" +:+ v +:+ "]"
  | PseudoClass v => ":" +:+ v
  | PseudoElement v => "::" +:+ v
  end.

(** The parts of rank [k], in insertion order. *)
Definition category (k : Z) (cs : list category_call) : list string :=
  map part (List.filter (fun c => rank c =? k) cs).

(** Concatenation in the fixed category order, no separator. *)
Definition selector_text (cs : list category_call) : string :=
  String.concat ""
    (category 1 cs ++ category 2 cs ++ category 3 cs ++
     category 4 cs ++ category 5 cs ++ category 6 cs).

(** Ranks never decrease along the chain. *)
Fixpoint nondecreasing (l : list Z) : bool :=
  match l with
  | x :: t => match t with
              | y :: _ => (x <=? y) && nondecreasing t
              | [] => true
              end
  | [] => true
  end.

(** Rank [k] is used at most once. *)
Definition at_most_once (k : Z) (cs : list category_call) : bool :=
  (length (List.filter (fun c => (rank c =? k)%Z) cs) <=? 1)%nat.

Definition valid_chain (cs : list category_call) : bool :=
  nondecreasing (map rank cs)
  && at_most_once 1 cs && at_most_once 2 cs && at_most_once 6 cs.

(** ** Derived states and the documented programs *)

(** The builder reached from a new one by a valid chain. *)
Definition state_after (cs : list category_call) : CssBuilder :=
  {| el := {| el_tag := String.concat "" (category 1 cs);
              el_id := String.concat "" (category 2 cs);
              el_class := String.concat "" (category 3 cs);
              el_attr := String.concat "" (category 4 cs);
              el_pseudoClass := String.concat "" (category 5 cs);
              el_pseudoElement := String.concat "" (category 6 cs) |};
     type := default 0 (last (map rank cs));
     uniqueError := uniqueError new_CssBuilder;
     orderError := orderError new_CssBuilder;
     combinedString := "" |}.

(** A builder with nothing left to render. *)
Definition spent (b : CssBuilder) : Prop :=
  el b = empty_el /\ combinedString b = "".

(** The double quote character, for attribute bodies that contain it. *)
Definition dquote : string := String (Ascii.ascii_of_nat 34) "".

(** [element('div').id('test').class('myClass').attr('href')
      .pseudoClass('focus').pseudoElement('after').stringify()] *)
Definition full_chain : Prog string :=
  (r <- cssSelectorBuilder.element "div" ;;
   r <- send r (id "test") ;;
   r <- send r (class "myClass") ;;
   r <- send r (attr "href") ;;
   r <- send r (pseudoClass "focus") ;;
   r <- send r (pseudoElement "after") ;;
   call r stringify)%prog.

(** [element('a').attr('href$=".png"').pseudoClass('focus').stringify()] *)
Definition png_chain : Prog string :=
  (r <- cssSelectorBuilder.element "a" ;;
   r <- send r (attr ("href$=" +:+ dquote +:+ ".png" +:+ dquote)) ;;
   r <- send r (pseudoClass "focus") ;;
   call r stringify)%prog.

(** The example of the source's documentation: three nested combinators,
    the innermost one the descendant space. *)
Definition documented_example : Prog string :=
  (d <- (r <- cssSelectorBuilder.element "div" ;;
         r <- send r (id "main") ;;
         r <- send r (class "container") ;;
         send r (class "draggable")) ;;
   t <- (r <- cssSelectorBuilder.element "table" ;; send r (id "data")) ;;
   tr <- (r <- cssSelectorBuilder.element "tr" ;; send r (pseudoClass "nth-of-type(even)")) ;;
   td <- (r <- cssSelectorBuilder.element "td" ;; send r (pseudoClass "nth-of-type(even)")) ;;
   inner <- cssSelectorBuilder.combine tr " " td ;;
   middle <- cssSelectorBuilder.combine t "~" inner ;;
   outer <- cssSelectorBuilder.combine d "+" middle ;;
   call outer stringify)%prog.

(** ** Chains through the facade, and the builders a program can reach *)

(** The facade entry point of a category call: [cssSelectorBuilder.m(v)]. *)
Definition facade (c : category_call) : Prog loc :=
  match c with
  | Element v => cssSelectorBuilder.element v
  | Id v => cssSelectorBuilder.id v
  | Class v => cssSelectorBuilder.class v
  | Attr v => cssSelectorBuilder.attr v
  | PseudoClass v => cssSelectorBuilder.pseudoClass v
  | PseudoElement v => cssSelectorBuilder.pseudoElement v
  end.

(** [r.m1(v1).m2(v2)...]: each call is sent to the address the previous
    one returned. *)
Fixpoint sends (r : loc) (cs : list category_call) : Prog loc :=
  match cs with
  | [] => pret r
  | c :: cs' => pbind (send r (perform c)) (fun r' => sends r' cs')
  end.

(** [cssSelectorBuilder.m1(v1).m2(v2)...stringify()] *)
Definition facade_chain (c : category_call) (cs : list category_call) : Prog string :=
  pbind (facade c) (fun r => pbind (sends r cs) (fun r' => call r' stringify)).

(** The states a builder can be in: it starts as the constructor leaves it,
    and changes only through a category call (which may throw),
    [stringify], or the assignment to [this.combinedString] in [combine]. *)
Inductive reachable : CssBuilder -> Prop :=
  | reachable_new : reachable new_CssBuilder
  | reachable_perform (c : category_call) (b : CssBuilder) :
      reachable b -> reachable (snd (perform c b))
  | reachable_stringify (b : CssBuilder) :
      reachable b -> reachable (snd (stringify b))
  | reachable_combined (s : string) (b : CssBuilder) :
      reachable b -> reachable (set_combinedString s b).

(** The fields of [this.el] of the categories beyond the last rank hold
    nothing yet. *)
Definition unused_above (b : CssBuilder) : Prop :=
  (type b < 1 -> el_tag (el b) = "") /\
  (type b < 2 -> el_id (el b) = "") /\
  (type b < 3 -> el_class (el b) = "") /\
  (type b < 4 -> el_attr (el b) = "") /\
  (type b < 5 -> el_pseudoClass (el b) = "") /\
  (type b < 6 -> el_pseudoElement (el b) = "").

(** * Properties *)

(** ** Strings *)

Lemma append_nil_r (s : string) : s +:+ "" = s.
Proof.
  induction s as [|a s IH]; [reflexivity |].
  change (String a (s +:+ "") = String a s). now rewrite IH.
Qed.

Lemma append_assoc (s1 s2 s3 : string) : (s1 +:+ s2) +:+ s3 = s1 +:+ s2 +:+ s3.
Proof.
  induction s1 as [|a s1 IH]; [reflexivity |].
  change (String a ((s1 +:+ s2) +:+ s3) = String a (s1 +:+ s2 +:+ s3)). now rewrite IH.
Qed.

Lemma concat_cons (s : string) (l : list string) :
  String.concat "" (s :: l) = s +:+ String.concat "" l.
Proof.
  destruct l as [|s' l].
  - change (s = s +:+ ""). now rewrite append_nil_r.
  - reflexivity.
Qed.

Lemma concat_app (l1 l2 : list string) :
  String.concat "" (l1 ++ l2) = String.concat "" l1 +:+ String.concat "" l2.
Proof.
  induction l1 as [|s l1 IH]; [reflexivity |].
  change ((s :: l1) ++ l2) with (s :: (l1 ++ l2)).
  now rewrite !concat_cons, IH, append_assoc.
Qed.

Lemma truthy_separated (s1 c s2 : string) :
  truthy (s1 +:+ " " +:+ c +:+ " " +:+ s2) = true.
Proof. destruct s1; reflexivity. Qed.

(** ** The methods, as equations *)

Lemma checkType_eq (ty : Z) (b : CssBuilder) :
  checkType ty b =
    if ty <? type b then (Throw (orderError b), b)
    else if (ty =? type b) && includes [1; 2; 6] ty then (Throw (uniqueError b), b)
    else (Normal tt, set_type ty b).
Proof.
  unfold checkType, bind, get, throw, modify.
  destruct (ty <? type b); [reflexivity |].
  destruct ((ty =? type b) && includes [1; 2; 6] ty); reflexivity.
Qed.

Lemma perform_eq (c : category_call) (b : CssBuilder) :
  perform c b =
    if rank c <? type b then (Throw (orderError b), b)
    else if (rank c =? type b) && includes [1; 2; 6] (rank c) then (Throw (uniqueError b), b)
    else (Normal tt, set_el (write c (el b)) (set_type (rank c) b)).
Proof.
  destruct c; cbn [perform rank];
    unfold element, id, class, attr, pseudoClass, pseudoElement, bind;
    rewrite checkType_eq;
    (match goal with |- context [?r <? type b] => destruct (r <? type b) end;
     [reflexivity |]);
    (match goal with |- context [(?r =? type b) && ?i] => destruct ((r =? type b) && i) end;
     reflexivity).
Qed.

Lemma stringify_eq (b : CssBuilder) :
  stringify b =
    if truthy (combinedString b) then (Normal (combinedString b), set_combinedString "" b)
    else (Normal (join "" (Object_values (el b))), set_el (clear_keys (el b)) b).
Proof.
  unfold stringify, bind, get, modify, ret.
  destruct (truthy (combinedString b)); reflexivity.
Qed.

(** [Object.values(e).join('')] is the six fields one after the other. *)
Lemma join_fields (e : El) :
  join "" (Object_values e)
  = el_tag e +:+ el_id e +:+ el_class e +:+ el_attr e
    +:+ el_pseudoClass e +:+ el_pseudoElement e.
Proof.
  unfold join, Object_values. rewrite !concat_cons. cbn [String.concat].
  now rewrite append_nil_r.
Qed.

Lemma includes_single (r : Z) : includes [1; 2; 6] r = true <-> single r.
Proof.
  unfold includes, single; simpl. rewrite !orb_true_iff, !Z.eqb_eq.
  intuition discriminate.
Qed.

(** The three outcomes of a category call, by the rank comparison. *)
Lemma perform_order (c : category_call) (b : CssBuilder) :
  rank c < type b -> perform c b = (Throw (orderError b), b).
Proof.
  intros Hlt. rewrite perform_eq.
  apply Z.ltb_lt in Hlt. now rewrite Hlt.
Qed.

Lemma perform_unique (c : category_call) (b : CssBuilder) :
  rank c = type b -> single (rank c) -> perform c b = (Throw (uniqueError b), b).
Proof.
  intros Heq Hs. rewrite perform_eq.
  rewrite (proj2 (Z.ltb_ge _ _)) by lia.
  apply Z.eqb_eq in Heq. apply includes_single in Hs.
  now rewrite Heq, Hs.
Qed.

Lemma perform_pass (c : category_call) (b : CssBuilder) :
  type b <= rank c -> ~ (rank c = type b /\ single (rank c)) ->
  perform c b = (Normal tt, set_el (write c (el b)) (set_type (rank c) b)).
Proof.
  intros Hle Hn. rewrite perform_eq.
  rewrite (proj2 (Z.ltb_ge _ _)) by lia.
  destruct ((rank c =? type b) && includes [1; 2; 6] (rank c)) eqn:E; [| reflexivity].
  apply andb_true_iff in E as [E1 E2].
  apply Z.eqb_eq in E1. apply includes_single in E2. tauto.
Qed.

Lemma perform_throw_inv (c : category_call) (b b' : CssBuilder) (e : string) :
  perform c b = (Throw e, b') ->
  b' = b /\
  (rank c < type b /\ e = orderError b \/
   rank c = type b /\ single (rank c) /\ e = uniqueError b).
Proof.
  rewrite perform_eq.
  destruct (rank c <? type b) eqn:E1.
  - intros [= <- <-]. apply Z.ltb_lt in E1. auto.
  - destruct ((rank c =? type b) && includes [1; 2; 6] (rank c)) eqn:E2.
    + intros [= <- <-]. apply andb_true_iff in E2 as [E2 E3].
      apply Z.eqb_eq in E2. apply includes_single in E3. auto.
    + discriminate.
Qed.

Lemma stringify_returns (b : CssBuilder) :
  exists s b', stringify b = (Normal s, b').
Proof. rewrite stringify_eq. destruct (truthy (combinedString b)); eauto. Qed.

Lemma stringify_plain (b : CssBuilder) :
  combinedString b = "" ->
  stringify b = (Normal (join "" (Object_values (el b))), set_el empty_el b).
Proof. intros Hc. rewrite stringify_eq, Hc. reflexivity. Qed.

Lemma chain_app (cs1 cs2 : list category_call) (b : CssBuilder) :
  chain (cs1 ++ cs2) b = bind (chain cs1) (fun _ => chain cs2) b.
Proof.
  revert b. induction cs1 as [|c cs1 IH]; intros b; [reflexivity |].
  cbn [chain app]. unfold bind.
  destruct (perform c b) as [[[]|e] b1]; [| reflexivity].
  rewrite IH. reflexivity.
Qed.

(** ** Calls through the store *)

Lemma call_lookup {A} (r : loc) (m : M A) (h : store) (b : CssBuilder) :
  h !! r = Some b ->
  call r m h = Some (fst (m b), <[r := snd (m b)]> h).
Proof. intros Hr. unfold call. rewrite Hr. now destruct (m b). Qed.

Lemma call_inv {A} (r : loc) (m : M A) (h h' : store) (c : completion A) :
  call r m h = Some (c, h') ->
  exists b, h !! r = Some b /\ c = fst (m b) /\ h' = <[r := snd (m b)]> h.
Proof.
  unfold call. destruct (h !! r) as [b|] eqn:Hr; [| discriminate].
  destruct (m b) as [c0 b0] eqn:E. intros [= <- <-].
  exists b. now rewrite E.
Qed.

Lemma call_length {A} (r : loc) (m : M A) (h h' : store) (c : completion A) :
  call r m h = Some (c, h') -> length h' = length h.
Proof.
  intros Hc. apply call_inv in Hc as (b & _ & _ & ->). apply length_insert.
Qed.

(** A call touches only the object it is sent to. *)
Lemma call_frame {A} (r r' : loc) (m : M A) (h h' : store) (c : completion A) :
  call r m h = Some (c, h') -> r' <> r -> h' !! r' = h !! r'.
Proof.
  intros Hc Hne. apply call_inv in Hc as (b & _ & _ & ->).
  apply list_lookup_insert_ne. congruence.
Qed.

(** Objects allocated later do not change what a call does. *)
Lemma call_app_l {A} (r : loc) (m : M A) (h h' t : store) (c : completion A) :
  call r m h = Some (c, h') -> call r m (h ++ t) = Some (c, h' ++ t).
Proof.
  intros Hc. apply call_inv in Hc as (b & Hr & -> & ->).
  assert (Hlt : (r < length h)%nat) by (eapply lookup_lt_Some; eassumption).
  rewrite (call_lookup r m (h ++ t) b).
  - now rewrite insert_app_l.
  - now rewrite lookup_app_l.
Qed.

(** A call to the object allocated last. *)
Lemma call_last {A} (m : M A) (h : store) (b : CssBuilder) :
  call (length h) m (h ++ [b]) = Some (fst (m b), h ++ [snd (m b)]).
Proof.
  rewrite (call_lookup (length h) m (h ++ [b]) b).
  - rewrite insert_app_r_alt by lia. now rewrite Nat.sub_diag.
  - rewrite lookup_app_r by lia. now rewrite Nat.sub_diag.
Qed.

(** Rendering an allocated builder always returns. *)
Lemma call_stringify_returns (r : loc) (h : store) :
  (r < length h)%nat ->
  exists s h', call r stringify h = Some (Normal s, h').
Proof.
  intros Hlt. destruct (lookup_lt_is_Some_2 h r Hlt) as [b Hb].
  destruct (stringify_returns b) as (s & b' & Hs).
  exists s, (<[r := b']> h). rewrite (call_lookup r stringify h b Hb), Hs. reflexivity.
Qed.

(** Name the outcome of rendering the allocated builder [r] in store [h],
    and record that the store keeps its length. *)
Ltac render r h s h' H :=
  let L := fresh "L" in
  destruct (call_stringify_returns r h ltac:(lia)) as (s & h' & H);
  pose proof (call_length _ _ _ _ _ H) as L.

(** Rendering a builder that holds a combined string. *)
Lemma call_stringify_combined (h : store) (b : CssBuilder) (s : string) :
  truthy s = true ->
  call (length h) stringify (h ++ [set_combinedString s b])
  = Some (Normal s, h ++ [set_combinedString "" b]).
Proof.
  intros Ht. rewrite call_last, stringify_eq.
  cbn [combinedString set_combinedString]. rewrite Ht. reflexivity.
Qed.

(** The facade's [combine], in closed form: both operands are rendered in
    turn and the joined text is stored on the builder allocated for it. *)
Lemma combine_run (h h1 h2 : store) (a b : loc) (c sa sb : string) :
  call a stringify h = Some (Normal sa, h1) ->
  call b stringify h1 = Some (Normal sb, h2) ->
  cssSelectorBuilder.combine a c b h
  = Some (Normal (length h),
          h2 ++ [set_combinedString (sa +:+ " " +:+ c +:+ " " +:+ sb) new_CssBuilder]).
Proof.
  intros Ha Hb.
  unfold cssSelectorBuilder.combine, combine, pbind, new, pret.
  rewrite (call_app_l _ _ _ _ [new_CssBuilder] _ Ha).
  rewrite (call_app_l _ _ _ _ [new_CssBuilder] _ Hb).
  assert (Hlen : length h = length h2).
  { apply call_length in Ha, Hb. congruence. }
  rewrite Hlen, call_last. reflexivity.
Qed.

(** Rendering the result of [combine]. *)
Lemma combine_stringify_run (h h1 h2 : store) (a b : loc) (c sa sb : string) :
  call a stringify h = Some (Normal sa, h1) ->
  call b stringify h1 = Some (Normal sb, h2) ->
  pbind (cssSelectorBuilder.combine a c b) (fun r => call r stringify) h
  = Some (Normal (sa +:+ " " +:+ c +:+ " " +:+ sb), h2 ++ [new_CssBuilder]).
Proof.
  intros Ha Hb. unfold pbind. rewrite (combine_run _ _ _ _ _ c _ _ Ha Hb).
  assert (Hlen : length h = length h2).
  { apply call_length in Ha, Hb. congruence. }
  rewrite Hlen, call_stringify_combined by apply truthy_separated.
  reflexivity.
Qed.

(** ** Rectangle *)

(** C8: for every width and height, [Rectangle(width, height)] is an object
    whose [width] is the given width, whose [height] is the given height and
    whose [getArea()] returns the product width * height. *)
Theorem Rectangle_fields_and_area :
  forall (number : Type) (times : number -> number -> number) (w h : number),
    width (Rectangle w h) = w /\
    height (Rectangle w h) = h /\
    getArea times (Rectangle w h) = times w h.
Proof. intros number times w h. repeat split. Qed.

(** The documented example: [new Rectangle(10, 20)]. *)
Example Rectangle_10_20 :
  width (Rectangle 10 20) = 10 /\ height (Rectangle 10 20) = 20 /\
  getArea Z.mul (Rectangle 10 20) = 200.
Proof. repeat split. Qed.

(** ** Ordering and uniqueness *)

Section CheckType.
Local Open Scope prog_scope.

(** C2: a category call of rank R on a builder whose last rank is L throws
    the order error when R < L, throws the uniqueness error when R = L and
    R is 1, 2 or 6, and otherwise succeeds, sets the last rank to R and
    performs its append or set: [element] replaces the tag, [id] replaces
    the id by ["#" + value], [class], [attr], [pseudoClass] and
    [pseudoElement] append their prefixed value to their field, and every
    other field is kept.  Repeated calls at ranks 3, 4, 5 succeed;
    [id('a').id('b')] throws the uniqueness error and [class('a').id('b')]
    the order error. *)
Theorem category_call_outcome (c : category_call) (b : CssBuilder) :
  (rank c < type b -> perform c b = (Throw (orderError b), b)) /\
  (rank c = type b -> single (rank c) -> perform c b = (Throw (uniqueError b), b)) /\
  (type b <= rank c -> ~ (rank c = type b /\ single (rank c)) ->
     exists b', perform c b = (Normal tt, b') /\
       type b' = rank c /\ el b' = write c (el b) /\
       el_tag (el b') =
         match c with Element v => v | _ => el_tag (el b) end /\
       el_id (el b') =
         match c with Id v => "#" +:+ v | _ => el_id (el b) end /\
       el_class (el b') =
         match c with Class v => el_class (el b) +:+ "." +:+ v | _ => el_class (el b) end /\
       el_attr (el b') =
         match c with Attr v => el_attr (el b) +:+ "[" +:+ v +:+ "]" | _ => el_attr (el b) end /\
       el_pseudoClass (el b') =
         match c with
         | PseudoClass v => el_pseudoClass (el b) +:+ ":" +:+ v
         | _ => el_pseudoClass (el b)
         end /\
       el_pseudoElement (el b') =
         match c with
         | PseudoElement v => el_pseudoElement (el b) +:+ "::" +:+ v
         | _ => el_pseudoElement (el b)
         end /\
       uniqueError b' = uniqueError b /\ orderError b' = orderError b /\
       combinedString b' = combinedString b) /\
  (rank c = type b -> rank c = 3 \/ rank c = 4 \/ rank c = 5 ->
     exists b', perform c b = (Normal tt, b') /\ type b' = rank c) /\
  (exists h, (r <- cssSelectorBuilder.class "a" ;; r <- send r (class "b") ;;
              call r stringify) []
             = Some (Normal ".a.b", h)) /\
  (exists h, (r <- cssSelectorBuilder.id "a" ;; send r (id "b")) []
             = Some (Throw (uniqueError new_CssBuilder), h)) /\
  (exists h, (r <- cssSelectorBuilder.class "a" ;; send r (id "b")) []
             = Some (Throw (orderError new_CssBuilder), h)).
Proof.
  split; [apply perform_order |].
  split; [apply perform_unique |].
  split.
  { intros Hle Hn. eexists. split; [apply perform_pass; assumption |].
    destruct c; repeat split. }
  split.
  { intros Heq Hr. eexists.
    split; [apply perform_pass; [lia | unfold single; lia] | reflexivity]. }
  repeat split; eexists; reflexivity.
Qed.

Lemma category_call_outcome_witness :
  let b := snd (perform (Class "a") new_CssBuilder) in
  rank (Id "b") < type b /\
  perform (Id "b") b = (Throw (orderError b), b).
Proof.
  intros b. assert (Hlt : rank (Id "b") < type b) by reflexivity.
  split; [exact Hlt |].
  exact (proj1 (category_call_outcome (Id "b") b) Hlt).
Defined.

End CheckType.

(** ** Errors *)

(** C6: the errors are outcomes of the offending category call itself:
    a call whose rank breaks the rules throws at once, a call that throws
    leaves the builder exactly as it was (also seen through the store), the
    rest of the chain is not run, and [stringify] never throws. *)
Theorem errors_raised_at_the_call (c : category_call) (b : CssBuilder) :
  (rank c < type b \/ (rank c = type b /\ single (rank c)) ->
     exists e, perform c b = (Throw e, b)) /\
  (forall e b', perform c b = (Throw e, b') ->
     b' = b /\
     (rank c < type b /\ e = orderError b \/
      rank c = type b /\ single (rank c) /\ e = uniqueError b)) /\
  (forall (h h' : store) (r : loc) e,
     send r (perform c) h = Some (Throw e, h') -> h' = h) /\
  (forall (before after : list category_call) (b0 : CssBuilder) e,
     chain before b0 = (Normal tt, b) ->
     perform c b = (Throw e, b) ->
     chain (before ++ c :: after) b0 = (Throw e, b)) /\
  (forall b0, exists s b1, stringify b0 = (Normal s, b1)) /\
  (forall (h : store) (r : loc), (r < length h)%nat ->
     exists s h', call r stringify h = Some (Normal s, h')).
Proof.
  split.
  { intros [Hlt | [Heq Hs]].
    - exists (orderError b). now apply perform_order.
    - exists (uniqueError b). now apply perform_unique. }
  split; [intros e b'; apply perform_throw_inv |].
  split.
  { intros h h' r e. unfold send, pbind, pret.
    destruct (call r (perform c) h) as [[[[]|e0] h0]|] eqn:Hc; try discriminate.
    intros [= -> ->].
    apply call_inv in Hc as (b0 & Hr & Hf & ->).
    destruct (perform c b0) as [k b1] eqn:Hp. simpl in Hf. subst k.
    apply perform_throw_inv in Hp as [-> _]. simpl.
    now apply list_insert_id. }
  split.
  { intros before after b0 e Hb Hp. rewrite chain_app. unfold bind at 1.
    rewrite Hb. cbn [chain]. unfold bind. now rewrite Hp. }
  split; [apply stringify_returns |].
  intros h r. apply call_stringify_returns.
Qed.

Lemma errors_raised_at_the_call_witness :
  let b := snd (perform (Id "a") new_CssBuilder) in
  rank (Element "p") < type b /\
  exists e, perform (Element "p") b = (Throw e, b).
Proof.
  intros b. assert (Hlt : rank (Element "p") < type b) by reflexivity.
  split; [exact Hlt |].
  exact (proj1 (errors_raised_at_the_call (Element "p") b) (or_introl Hlt)).
Defined.

(** ** Rendering resets the parts, not the rank *)

(** C5: on a builder that holds no combined string, [stringify()] clears
    every field of [this.el], so a second [stringify()] on the same
    instance returns the empty string. *)
Theorem stringify_twice_empty (b : CssBuilder) :
  combinedString b = "" ->
  (exists s b1, stringify b = (Normal s, b1) /\
     el b1 = empty_el /\ stringify b1 = (Normal "", b1)) /\
  (forall (h : store) (r : loc), h !! r = Some b ->
     exists s h1, call r stringify h = Some (Normal s, h1) /\
       call r stringify h1 = Some (Normal "", h1)).
Proof.
  intros Hc.
  assert (H2 : stringify (set_el empty_el b) = (Normal "", set_el empty_el b)).
  { rewrite stringify_plain by exact Hc. reflexivity. }
  split.
  - exists (join "" (Object_values (el b))), (set_el empty_el b).
    rewrite stringify_plain by exact Hc. auto.
  - intros h r Hr.
    exists (join "" (Object_values (el b))), (<[r := set_el empty_el b]> h).
    rewrite (call_lookup r stringify h b Hr), stringify_plain by exact Hc.
    split; [reflexivity |].
    assert (Hlt : (r < length h)%nat) by (eapply lookup_lt_Some; eassumption).
    rewrite (call_lookup r stringify _ (set_el empty_el b))
      by now apply list_lookup_insert_eq.
    rewrite H2. cbn [fst snd]. now rewrite list_insert_insert_eq.
Qed.

Lemma stringify_twice_empty_witness :
  combinedString (snd (chain [Id "main"; Class "container"] new_CssBuilder)) = "" /\
  exists s b1,
    stringify (snd (chain [Id "main"; Class "container"] new_CssBuilder)) = (Normal s, b1) /\
    el b1 = empty_el /\ stringify b1 = (Normal "", b1).
Proof.
  split; [reflexivity |].
  apply (stringify_twice_empty (snd (chain [Id "main"; Class "container"] new_CssBuilder))).
  reflexivity.
Defined.

(** C9: on a builder that holds no combined string, [stringify()] empties
    the six fields of [this.el] and leaves [this.type] (and every other
    field) as it was; so after rendering, a category call of rank below the
    last rank still throws the order error, and a builder that has taken any
    category call refuses [element] where a new builder accepts it. *)
Theorem stringify_keeps_rank (b : CssBuilder) :
  combinedString b = "" ->
  exists s b1, stringify b = (Normal s, b1) /\
    el b1 = empty_el /\ type b1 = type b /\
    uniqueError b1 = uniqueError b /\ orderError b1 = orderError b /\
    combinedString b1 = combinedString b /\
    (forall c, rank c < type b -> perform c b1 = (Throw (orderError b), b1)) /\
    (1 <= type b -> forall v, exists e, perform (Element v) b1 = (Throw e, b1)) /\
    (forall v, exists b2, perform (Element v) new_CssBuilder = (Normal tt, b2)).
Proof.
  intros Hc.
  exists (join "" (Object_values (el b))), (set_el empty_el b).
  rewrite stringify_plain by exact Hc.
  repeat (split; [reflexivity |]).
  split; [intros c Hlt; exact (perform_order c (set_el empty_el b) Hlt) |].
  split.
  - intros Hge v.
    destruct (Z.eq_dec (type b) 1) as [E | E].
    + eexists. apply perform_unique; [symmetry; exact E | left; reflexivity].
    + eexists. apply perform_order. change (1 < type b). lia.
  - intros v. eexists. reflexivity.
Qed.

Lemma stringify_keeps_rank_witness :
  combinedString (snd (chain [Class "a"] new_CssBuilder)) = "" /\
  exists s b1,
    stringify (snd (chain [Class "a"] new_CssBuilder)) = (Normal s, b1) /\
    type b1 = 3 /\
    perform (Id "b") b1 = (Throw (orderError new_CssBuilder), b1).
Proof.
  split; [reflexivity |].
  destruct (stringify_keeps_rank (snd (chain [Class "a"] new_CssBuilder)) eq_refl)
    as (s & b1 & Hs & _ & Ht & _ & _ & _ & Ho & _).
  exists s, b1. split; [exact Hs |]. split; [exact Ht |].
  apply (Ho (Id "b")). reflexivity.
Defined.

(** ** Valid chains render in category order *)

Lemma rank_range (c : category_call) : 1 <= rank c <= 6.
Proof. destruct c; cbn; lia. Qed.

Lemma nondecreasing_snoc (l : list Z) (x : Z) :
  nondecreasing (l ++ [x]) = true ->
  nondecreasing l = true /\ forall y, last l = Some y -> y <= x.
Proof.
  induction l as [|a l IH]; [intros _; split; [reflexivity | discriminate] |].
  destruct l as [|b l].
  - cbn. rewrite andb_true_r. intros Hle%Z.leb_le.
    split; [reflexivity |]. now intros y [= <-].
  - change (nondecreasing ((a :: b :: l) ++ [x]))
      with ((a <=? b) && nondecreasing ((b :: l) ++ [x])).
    intros [Hab Hrest]%andb_true_iff. destruct (IH Hrest) as [Hnd Hlast].
    split.
    + change (nondecreasing (a :: b :: l)) with ((a <=? b) && nondecreasing (b :: l)).
      now rewrite Hab, Hnd.
    + intros y Hy. apply Hlast. exact Hy.
Qed.

Lemma at_most_once_snoc (k : Z) (cs : list category_call) (c : category_call) :
  at_most_once k (cs ++ [c]) = true ->
  at_most_once k cs = true /\
  (rank c = k -> List.filter (fun x => rank x =? k) cs = []).
Proof.
  unfold at_most_once. rewrite List.filter_app, length_app.
  intros Hle%Nat.leb_le. split.
  - apply Nat.leb_le. lia.
  - intros Hk. cbn [List.filter] in Hle.
    apply Z.eqb_eq in Hk. rewrite Hk in Hle. cbn in Hle.
    destruct (List.filter (fun x => rank x =? k) cs); [reflexivity | cbn in Hle; lia].
Qed.

Lemma last_rank_used (cs : list category_call) (r : Z) :
  last (map rank cs) = Some r ->
  List.filter (fun x => rank x =? r) cs <> [].
Proof.
  destruct cs as [|c cs _] using rev_ind; [discriminate |].
  rewrite map_app. cbn [map]. rewrite last_snoc. intros [= Hr].
  rewrite List.filter_app. cbn [List.filter].
  apply Z.eqb_eq in Hr. rewrite Hr.
  intros Habs. now apply app_eq_nil in Habs as [_ Habs].
Qed.

Lemma valid_chain_snoc (cs : list category_call) (c : category_call) :
  valid_chain (cs ++ [c]) = true ->
  valid_chain cs = true /\
  type (state_after cs) <= rank c /\
  ~ (rank c = type (state_after cs) /\ single (rank c)) /\
  (single (rank c) -> category (rank c) cs = []).
Proof.
  unfold valid_chain. rewrite !andb_true_iff, map_app. cbn [map].
  intros [[[Hnd H1] H2] H6].
  apply nondecreasing_snoc in Hnd as [Hnd Hlast].
  apply at_most_once_snoc in H1 as [H1 E1], H2 as [H2 E2], H6 as [H6 E6].
  assert (Hs : single (rank c) -> List.filter (fun x => rank x =? rank c) cs = []).
  { intros [E | [E | E]]; rewrite E; auto. }
  split; [now rewrite Hnd, H1, H2, H6 |].
  cbn [type state_after].
  split; [| split].
  - destruct (last (map rank cs)) as [y|] eqn:Hy; cbn.
    + now apply Hlast.
    + pose proof (rank_range c). lia.
  - intros [Heq Hsingle].
    destruct (last (map rank cs)) as [y|] eqn:Hy; cbn in Heq.
    + apply last_rank_used in Hy. subst y. now apply Hy, Hs.
    + pose proof (rank_range c). lia.
  - intros Hsingle. unfold category. now rewrite Hs.
Qed.

Lemma category_snoc (k : Z) (cs : list category_call) (c : category_call) :
  String.concat "" (category k (cs ++ [c]))
  = String.concat "" (category k cs) +:+ (if rank c =? k then part c else "").
Proof.
  unfold category. rewrite List.filter_app, map_app, concat_app.
  cbn [List.filter]. destruct (rank c =? k); reflexivity.
Qed.

Lemma state_after_snoc (cs : list category_call) (c : category_call) :
  (single (rank c) -> category (rank c) cs = []) ->
  set_el (write c (el (state_after cs))) (set_type (rank c) (state_after cs))
  = state_after (cs ++ [c]).
Proof.
  intros Hs. unfold state_after.
  rewrite !category_snoc, map_app. cbn [map]. rewrite last_snoc.
  destruct c;
    cbn [rank Z.eqb Pos.eqb part write set_el set_type el type
         set_tag set_id set_class set_attr set_pseudoClass set_pseudoElement
         el_tag el_id el_class el_attr el_pseudoClass el_pseudoElement
         uniqueError orderError combinedString] in *;
    rewrite ?append_nil_r;
    try (rewrite Hs by (unfold single; auto));
    reflexivity.
Qed.

Lemma chain_valid_state (cs : list category_call) :
  valid_chain cs = true ->
  chain cs new_CssBuilder = (Normal tt, state_after cs).
Proof.
  induction cs as [|c cs IH] using rev_ind; [reflexivity |].
  intros Hv. apply valid_chain_snoc in Hv as (Hv & Hle & Hn & Hs).
  rewrite chain_app. unfold bind at 1. rewrite (IH Hv).
  cbn [chain]. unfold bind, ret.
  rewrite perform_pass by assumption.
  now rewrite state_after_snoc.
Qed.

(** What [stringify] reads off [state_after cs]. *)
Lemma join_state_after (cs : list category_call) :
  join "" (Object_values (el (state_after cs))) = selector_text cs.
Proof.
  unfold selector_text, join, Object_values. cbn [el state_after el_tag el_id
    el_class el_attr el_pseudoClass el_pseudoElement].
  rewrite !concat_app, !concat_cons. cbn [String.concat].
  now rewrite append_nil_r.
Qed.

(** C1: for every chain of category calls on a new builder whose ranks
    never decrease and which uses each of the ranks 1, 2 and 6 at most
    once, every call succeeds and [stringify()] returns the text of the
    tag, then the id, then the classes, the attributes and the
    pseudo-classes (each kind in insertion order), then the pseudo-element,
    with no separator; with no call at all it returns the empty string. *)
Theorem valid_chain_stringify (cs : list category_call) :
  valid_chain cs = true ->
  (exists b, chain cs new_CssBuilder = (Normal tt, b) /\
     exists b', stringify b = (Normal (selector_text cs), b')) /\
  (exists b', bind (chain cs) (fun _ => stringify) new_CssBuilder
              = (Normal (selector_text cs), b')) /\
  stringify new_CssBuilder = (Normal "", new_CssBuilder).
Proof.
  intros Hv. pose proof (chain_valid_state cs Hv) as Hc.
  assert (Hs : stringify (state_after cs)
               = (Normal (selector_text cs), set_el empty_el (state_after cs))).
  { rewrite stringify_plain by reflexivity. now rewrite join_state_after. }
  split; [| split].
  - exists (state_after cs). split; [exact Hc |]. eexists. exact Hs.
  - eexists. unfold bind. rewrite Hc. exact Hs.
  - reflexivity.
Qed.

Lemma valid_chain_stringify_witness :
  valid_chain [Id "main"; Class "container"; Class "editable"] = true /\
  exists b', bind (chain [Id "main"; Class "container"; Class "editable"])
               (fun _ => stringify) new_CssBuilder
             = (Normal "#main.container.editable", b').
Proof.
  split; [reflexivity |].
  apply (proj1 (proj2 (valid_chain_stringify
                         [Id "main"; Class "container"; Class "editable"] eq_refl))).
Defined.

(** ** Combinators *)

Lemma call_stringify_plain (h : store) (r : loc) (b : CssBuilder) :
  h !! r = Some b -> combinedString b = "" ->
  call r stringify h
  = Some (Normal (join "" (Object_values (el b))), <[r := set_el empty_el b]> h).
Proof.
  intros Hr Hc. rewrite (call_lookup r stringify h b Hr), stringify_plain by exact Hc.
  reflexivity.
Qed.

Lemma spent_set_el (b : CssBuilder) :
  combinedString b = "" -> spent (set_el empty_el b).
Proof. intros Hc. split; [reflexivity | exact Hc]. Qed.

Lemma call_stringify_spent (h : store) (r : loc) (b : CssBuilder) :
  h !! r = Some b -> spent b ->
  call r stringify h = Some (Normal "", h).
Proof.
  intros Hr [He Hc]. rewrite (call_stringify_plain h r b Hr Hc), He.
  assert (Hb : set_el empty_el b = b).
  { destruct b as [e t u o s]. cbn in He. subst e. reflexivity. }
  rewrite Hb, list_insert_id by exact Hr. reflexivity.
Qed.

(** What a builder renders is not changed by a call to another object. *)
Lemma call_stringify_before {A} (h h1 h2 : store) (a b : loc) (m : M A)
    (ca : completion A) (sb : string) :
  call a m h = Some (ca, h1) -> b <> a ->
  call b stringify h1 = Some (Normal sb, h2) ->
  exists h2', call b stringify h = Some (Normal sb, h2').
Proof.
  intros H1 Hne H2.
  apply call_inv in H2 as (bb & Hbb & Hf & _).
  rewrite (call_frame _ b _ _ _ _ H1 Hne) in Hbb.
  eexists. rewrite (call_lookup b stringify h bb Hbb), <- Hf. reflexivity.
Qed.

Section Combine.
Local Open Scope prog_scope.

(** C3 (amended): for two different builders A and B and any combinator
    [c], [combine(A, c, B).stringify()] is the string A would render, a
    space, [c], a space, and the string B would render.  In general, also
    when A and B are one object, the right part is what [B.stringify()]
    returns once A has been rendered.  A combined builder is an operand
    like any other, on the left and on the right: the operands are rendered
    in the order the calls evaluate them, and a later operand that is a
    different object from the earlier ones renders what it would have
    rendered at the start. *)
Theorem combine_stringify :
  (forall (h : store) (a b : loc) (c : string),
     (a < length h)%nat -> (b < length h)%nat -> a <> b ->
     exists sa ha sb hb h',
       call a stringify h = Some (Normal sa, ha) /\
       call b stringify h = Some (Normal sb, hb) /\
       (r <- cssSelectorBuilder.combine a c b ;; call r stringify) h
       = Some (Normal (sa +:+ " " +:+ c +:+ " " +:+ sb), h')) /\
  (forall (h : store) (a b : loc) (c : string),
     (a < length h)%nat -> (b < length h)%nat ->
     exists sa h1 sb h2 h',
       call a stringify h = Some (Normal sa, h1) /\
       call b stringify h1 = Some (Normal sb, h2) /\
       (a <> b -> exists h2', call b stringify h = Some (Normal sb, h2')) /\
       (r <- cssSelectorBuilder.combine a c b ;; call r stringify) h
       = Some (Normal (sa +:+ " " +:+ c +:+ " " +:+ sb), h')) /\
  (forall (h : store) (x y z : loc) (c1 c2 : string),
     (x < length h)%nat -> (y < length h)%nat -> (z < length h)%nat ->
     exists sx h1 sy h2 sz h3 h',
       call x stringify h = Some (Normal sx, h1) /\
       call y stringify h1 = Some (Normal sy, h2) /\
       call z stringify h2 = Some (Normal sz, h3) /\
       (y <> x -> exists k, call y stringify h = Some (Normal sy, k)) /\
       (z <> x -> z <> y -> exists k, call z stringify h = Some (Normal sz, k)) /\
       (l <- cssSelectorBuilder.combine x c1 y ;;
        r <- cssSelectorBuilder.combine l c2 z ;;
        call r stringify) h
       = Some (Normal ((sx +:+ " " +:+ c1 +:+ " " +:+ sy) +:+ " " +:+ c2 +:+ " " +:+ sz), h')) /\
  (forall (h : store) (x y z : loc) (c1 c2 : string),
     (x < length h)%nat -> (y < length h)%nat -> (z < length h)%nat ->
     exists sy h1 sz h2 sx h3 h',
       call y stringify h = Some (Normal sy, h1) /\
       call z stringify h1 = Some (Normal sz, h2) /\
       call x stringify h2 = Some (Normal sx, h3) /\
       (z <> y -> exists k, call z stringify h = Some (Normal sz, k)) /\
       (x <> y -> x <> z -> exists k, call x stringify h = Some (Normal sx, k)) /\
       (l <- cssSelectorBuilder.combine y c2 z ;;
        r <- cssSelectorBuilder.combine x c1 l ;;
        call r stringify) h
       = Some (Normal (sx +:+ " " +:+ c1 +:+ " " +:+ (sy +:+ " " +:+ c2 +:+ " " +:+ sz)), h')).
Proof.
  assert (Hseq : forall (h : store) (a b : loc) (c : string),
     (a < length h)%nat -> (b < length h)%nat ->
     exists sa h1 sb h2 h',
       call a stringify h = Some (Normal sa, h1) /\
       call b stringify h1 = Some (Normal sb, h2) /\
       (a <> b -> exists h2', call b stringify h = Some (Normal sb, h2')) /\
       (r <- cssSelectorBuilder.combine a c b ;; call r stringify) h
       = Some (Normal (sa +:+ " " +:+ c +:+ " " +:+ sb), h')).
  { intros h a b c Ha Hb.
    render a h sa h1 H1. render b h1 sb h2 H2.
    exists sa, h1, sb, h2, (h2 ++ [new_CssBuilder]).
    split; [exact H1 |]. split; [exact H2 |]. split.
    - intros Hne.
      eapply call_stringify_before; [exact H1 | congruence | exact H2].
    - exact (combine_stringify_run _ _ _ _ _ c _ _ H1 H2). }
  split; [| split; [exact Hseq | split]].
  - intros h a b c Ha Hb Hne.
    destruct (Hseq h a b c Ha Hb) as (sa & h1 & sb & h2 & h' & H1 & _ & Hb0 & Hr).
    destruct (Hb0 Hne) as [hb Hb1].
    exists sa, h1, sb, hb, h'. auto.
  - intros h x y z c1 c2 Hx Hy Hz.
    render x h sx h1 H1. render y h1 sy h2 H2. render z h2 sz h3 H3.
    exists sx, h1, sy, h2, sz, h3. eexists.
    repeat (split; [eassumption |]).
    split; [| split].
    + intros Hne.
      eapply call_stringify_before; [exact H1 | congruence | exact H2].
    + intros Hzx Hzy.
      destruct (call_stringify_before _ _ _ _ _ _ _ _ H2 Hzy H3) as [k Hk].
      eapply call_stringify_before; [exact H1 | congruence | exact Hk].
    + unfold pbind at 1. rewrite (combine_run _ _ _ _ _ c1 _ _ H1 H2).
      replace (length h) with (length h2) by lia.
      eapply combine_stringify_run.
      * apply call_stringify_combined, truthy_separated.
      * apply call_app_l. exact H3.
  - intros h x y z c1 c2 Hx Hy Hz.
    render y h sy h1 H1. render z h1 sz h2 H2. render x h2 sx h3 H3.
    exists sy, h1, sz, h2, sx, h3. eexists.
    repeat (split; [eassumption |]).
    split; [| split].
    + intros Hne.
      eapply call_stringify_before; [exact H1 | congruence | exact H2].
    + intros Hxy Hxz.
      destruct (call_stringify_before _ _ _ _ _ _ _ _ H2 Hxz H3) as [k Hk].
      eapply call_stringify_before; [exact H1 | congruence | exact Hk].
    + unfold pbind at 1. rewrite (combine_run _ _ _ _ _ c2 _ _ H1 H2).
      eapply combine_stringify_run.
      * apply call_app_l. exact H3.
      * replace (length h) with (length h3) by lia.
        apply call_stringify_combined, truthy_separated.
Qed.

End Combine.

Lemma combine_stringify_witness :
  let h := [snd (chain [Element "div"; Id "main"] new_CssBuilder);
            snd (chain [Element "table"; Id "data"] new_CssBuilder)] in
  ((0 < length h)%nat /\ (1 < length h)%nat /\ 0%nat <> 1%nat) /\
  exists sa ha sb hb h',
    call 0%nat stringify h = Some (Normal sa, ha) /\
    call 1%nat stringify h = Some (Normal sb, hb) /\
    pbind (cssSelectorBuilder.combine 0%nat "+" 1%nat) (fun r => call r stringify) h
    = Some (Normal (sa +:+ " " +:+ "+" +:+ " " +:+ sb), h').
Proof.
  intros h. split; [repeat split; cbn; lia |].
  apply (proj1 combine_stringify h 0%nat 1%nat "+"); cbn; lia.
Defined.

(** C3, as worded for all A and B with both texts taken before the call,
    does not hold when A and B are one object: an [li] builder renders
    [li], and combined with itself it renders [li + ] with nothing on the
    right. *)
Lemma combine_stringify_counterexample :
  (exists h1 h',
     call 0%nat stringify [snd (chain [Element "li"] new_CssBuilder)]
     = Some (Normal "li", h1) /\
     pbind (cssSelectorBuilder.combine 0%nat "+" 0%nat) (fun r => call r stringify)
       [snd (chain [Element "li"] new_CssBuilder)]
     = Some (Normal "li + ", h') /\
     "li + " <> "li" +:+ " " +:+ "+" +:+ " " +:+ "li") /\
  ~ (forall (h : store) (a b : loc) (c sa sb : string) (ha hb : store),
       call a stringify h = Some (Normal sa, ha) ->
       call b stringify h = Some (Normal sb, hb) ->
       exists h',
         pbind (cssSelectorBuilder.combine a c b) (fun r => call r stringify) h
         = Some (Normal (sa +:+ " " +:+ c +:+ " " +:+ sb), h')).
Proof.
  split.
  - eexists. eexists. split; [reflexivity |]. split; [reflexivity | discriminate].
  - intros Hall.
    destruct (Hall [snd (chain [Element "li"] new_CssBuilder)] 0%nat 0%nat "+" "li" "li"
                _ _ eq_refl eq_refl) as [h' Hh'].
    vm_compute in Hh'. discriminate.
Qed.

(** C4: whatever the combinator string, the combined selector is the left
    text, one space, the combinator, one space, the right text; with the
    descendant combinator (a space) the two texts are therefore separated
    by three spaces, so that a double space follows the left text. *)
Theorem combine_padding (h : store) (a b : loc) (c : string) :
  (a < length h)%nat -> (b < length h)%nat ->
  (exists sa h1 sb h2 out h',
     call a stringify h = Some (Normal sa, h1) /\
     call b stringify h1 = Some (Normal sb, h2) /\
     pbind (cssSelectorBuilder.combine a c b) (fun r => call r stringify) h
     = Some (Normal out, h') /\
     out = sa +:+ " " +:+ c +:+ " " +:+ sb /\
     (c = " " -> out = sa +:+ "   " +:+ sb /\ out = sa +:+ "  " +:+ " " +:+ sb)) /\
  (exists h',
     documented_example []
     = Some (Normal "div#main.container.draggable + table#data ~ tr:nth-of-type(even)   td:nth-of-type(even)", h')).
Proof.
  intros Ha Hb. split.
  - render a h sa h1 H1. render b h1 sb h2 H2.
    exists sa, h1, sb, h2, (sa +:+ " " +:+ c +:+ " " +:+ sb), (h2 ++ [new_CssBuilder]).
    repeat split; try assumption.
    + exact (combine_stringify_run _ _ _ _ _ c _ _ H1 H2).
    + now subst c.
    + now subst c.
  - eexists. vm_compute. reflexivity.
Qed.

Lemma combine_padding_witness :
  let h := [snd (chain [Element "tr"] new_CssBuilder);
            snd (chain [Element "td"] new_CssBuilder)] in
  ((0 < length h)%nat /\ (1 < length h)%nat) /\
  exists sa h1 sb h2 out h',
    call 0%nat stringify h = Some (Normal sa, h1) /\
    call 1%nat stringify h1 = Some (Normal sb, h2) /\
    pbind (cssSelectorBuilder.combine 0%nat " " 1%nat) (fun r => call r stringify) h
    = Some (Normal out, h') /\
    out = sa +:+ " " +:+ " " +:+ " " +:+ sb /\
    (" " = " " -> out = sa +:+ "   " +:+ sb /\ out = sa +:+ "  " +:+ " " +:+ sb).
Proof.
  intros h. split; [split; cbn; lia |].
  apply (proj1 (combine_padding h 0%nat 1%nat " " ltac:(cbn; lia) ltac:(cbn; lia))).
Defined.

(** C10: [combine(A, c, B)] renders both operands at once.  When neither
    holds a combined string, both are left with an empty [el], so that
    [A.stringify()] and [B.stringify()] afterwards return the empty string;
    the joined text (the fields of A in key order, a space, [c], a space,
    the fields of B in key order, or nothing when B is A) is the combined
    string of the builder allocated by [combine], which renders it, and no
    other object holds it: the operands keep an empty combined string and
    all other objects are unchanged. *)
Theorem combine_resets_operands (h : store) (a b : loc) (c : string)
    (ba bb : CssBuilder) :
  h !! a = Some ba -> h !! b = Some bb ->
  combinedString ba = "" -> combinedString bb = "" ->
  let text := fun x : CssBuilder =>
    el_tag (el x) +:+ el_id (el x) +:+ el_class (el x) +:+ el_attr (el x)
    +:+ el_pseudoClass (el x) +:+ el_pseudoElement (el x) in
  let joined :=
    text ba +:+ " " +:+ c +:+ " " +:+ (if decide (a = b) then "" else text bb) in
  exists h' ba' bb' br,
    cssSelectorBuilder.combine a c b h = Some (Normal (length h), h') /\
    h !! length h = None /\
    h' !! a = Some ba' /\ spent ba' /\
    h' !! b = Some bb' /\ spent bb' /\
    call a stringify h' = Some (Normal "", h') /\
    call b stringify h' = Some (Normal "", h') /\
    h' !! length h = Some br /\ truthy (combinedString br) = true /\
    combinedString br = joined /\
    el br = empty_el /\
    (exists h'', call (length h) stringify h' = Some (Normal joined, h'')) /\
    (forall x, x <> a -> x <> b -> (x < length h)%nat -> h' !! x = h !! x).
Proof.
  intros Ha Hb Hca Hcb text joined.
  pose proof (lookup_lt_Some _ _ _ Ha) as La.
  pose proof (lookup_lt_Some _ _ _ Hb) as Lb.
  pose proof (call_stringify_plain h a ba Ha Hca) as H1.
  rewrite join_fields in H1. fold (text ba) in H1.
  set (h1 := <[a := set_el empty_el ba]> h) in *.
  assert (L1 : length h1 = length h) by apply length_insert.
  assert (Hb1 : exists bb1, h1 !! b = Some bb1 /\ combinedString bb1 = "" /\
                  join "" (Object_values (el bb1))
                  = if decide (a = b) then "" else text bb).
  { destruct (decide (a = b)) as [-> | Hne].
    - exists (set_el empty_el ba).
      split; [now apply list_lookup_insert_eq |]. split; [exact Hca | reflexivity].
    - exists bb. split; [unfold h1; now rewrite list_lookup_insert_ne |].
      split; [exact Hcb | apply join_fields]. }
  destruct Hb1 as (bb1 & Hb1 & Hcb1 & Htb).
  pose proof (call_stringify_plain h1 b bb1 Hb1 Hcb1) as H2. rewrite Htb in H2.
  set (h2 := <[b := set_el empty_el bb1]> h1) in *.
  assert (L2 : length h2 = length h) by (unfold h2; rewrite length_insert; exact L1).
  assert (Hb2 : h2 !! b = Some (set_el empty_el bb1)).
  { apply list_lookup_insert_eq. lia. }
  assert (Ha2 : exists ba2, h2 !! a = Some ba2 /\ spent ba2).
  { destruct (decide (a = b)) as [-> | Hne].
    - eexists. split; [exact Hb2 | now apply spent_set_el].
    - exists (set_el empty_el ba). split; [| now apply spent_set_el].
      unfold h2. rewrite list_lookup_insert_ne by congruence.
      apply list_lookup_insert_eq. lia. }
  destruct Ha2 as (ba2 & Ha2 & Sa2).
  exists (h2 ++ [set_combinedString joined new_CssBuilder]),
    ba2, (set_el empty_el bb1), (set_combinedString joined new_CssBuilder).
  split; [exact (combine_run _ _ _ _ _ c _ _ H1 H2) |].
  split; [apply lookup_ge_None; lia |].
  assert (Ha' : (h2 ++ [set_combinedString joined new_CssBuilder]) !! a = Some ba2).
  { rewrite lookup_app_l by lia. exact Ha2. }
  assert (Hb' : (h2 ++ [set_combinedString joined new_CssBuilder]) !! b
                = Some (set_el empty_el bb1)).
  { rewrite lookup_app_l by lia. exact Hb2. }
  split; [exact Ha' |]. split; [exact Sa2 |].
  split; [exact Hb' |]. split; [now apply spent_set_el |].
  split; [now apply (call_stringify_spent _ _ _ Ha') |].
  split; [apply (call_stringify_spent _ _ _ Hb'); now apply spent_set_el |].
  split; [rewrite <- L2, lookup_app_r, Nat.sub_diag by lia; reflexivity |].
  split; [apply truthy_separated |].
  split; [reflexivity |]. split; [reflexivity |].
  split.
  { eexists. rewrite <- L2. apply call_stringify_combined, truthy_separated. }
  intros x Hxa Hxb Hx. rewrite lookup_app_l by lia.
  unfold h2, h1. now rewrite !list_lookup_insert_ne by congruence.
Qed.

Lemma combine_resets_operands_witness :
  let ba := snd (chain [Element "div"; Id "main"] new_CssBuilder) in
  let bb := snd (chain [Element "table"; Id "data"] new_CssBuilder) in
  ([ba; bb] !! 0%nat = Some ba /\ [ba; bb] !! 1%nat = Some bb /\
   combinedString ba = "" /\ combinedString bb = "") /\
  exists h' br,
    cssSelectorBuilder.combine 0%nat "+" 1%nat [ba; bb] = Some (Normal 2%nat, h') /\
    call 0%nat stringify h' = Some (Normal "", h') /\
    call 1%nat stringify h' = Some (Normal "", h') /\
    h' !! 2%nat = Some br /\
    combinedString br = "div#main + table#data".
Proof.
  intros ba bb. split; [repeat split |].
  destruct (combine_resets_operands [ba; bb] 0%nat 1%nat "+" ba bb
              eq_refl eq_refl eq_refl eq_refl)
    as (h' & _ & _ & br & Hc & _ & _ & _ & _ & _ & H0 & H1 & Hr & _ & Hj & _).
  exists h', br. auto.
Defined.

(** ** The documented chains *)

Lemma send_last (m : M unit) (h : store) (b b' : CssBuilder) :
  m b = (Normal tt, b') ->
  send (length h) m (h ++ [b]) = Some (Normal (length h), h ++ [b']).
Proof.
  intros Hm. unfold send, pbind, pret. now rewrite call_last, Hm.
Qed.

(** C7: the chain element, id, class, attr, pseudoClass, pseudoElement with
    the arguments div, test, myClass, href, focus, after renders
    div#test.myClass[href]:focus::after, and the chain element a, attr
    href$=".png", pseudoClass focus renders a[href$=".png"]:focus, whatever
    objects already exist. *)
Theorem documented_chains (h : store) :
  (exists h', full_chain h = Some (Normal "div#test.myClass[href]:focus::after", h')) /\
  (exists h', png_chain h
     = Some (Normal ("a[href$=" +:+ dquote +:+ ".png" +:+ dquote +:+ "]:focus"), h')).
Proof.
  split; eexists.
  - unfold full_chain, cssSelectorBuilder.element, pbind, new.
    do 6 (erewrite send_last by reflexivity).
    rewrite call_last. reflexivity.
  - unfold png_chain, cssSelectorBuilder.element, pbind, new.
    do 3 (erewrite send_last by reflexivity).
    rewrite call_last. reflexivity.
Qed.

(** * Further properties of the builder *)

(** ** Chains through the facade *)

Lemma sends_last (cs : list category_call) (h : store) (b : CssBuilder) :
  sends (length h) cs (h ++ [b])
  = Some (match chain cs b with
          | (Normal _, b') => (Normal (length h), h ++ [b'])
          | (Throw e, b') => (Throw e, h ++ [b'])
          end).
Proof.
  revert b. induction cs as [|c cs IH]; intros b; [reflexivity |].
  cbn [sends chain]. unfold send, pbind, pret, bind. rewrite call_last.
  destruct (perform c b) as [[[]|e] b1]; cbn [fst snd]; [apply IH | reflexivity].
Qed.

Lemma perform_new (c : category_call) :
  perform c new_CssBuilder
  = (Normal tt, set_el (write c empty_el) (set_type (rank c) new_CssBuilder)).
Proof. destruct c; reflexivity. Qed.

Lemma facade_run (c : category_call) (h : store) :
  facade c h
  = Some (Normal (length h),
          h ++ [set_el (write c empty_el) (set_type (rank c) new_CssBuilder)]).
Proof.
  assert (Hs : forall m, m new_CssBuilder
                 = (Normal tt, set_el (write c empty_el) (set_type (rank c) new_CssBuilder)) ->
               pbind new (fun r => send r m) h
               = Some (Normal (length h),
                       h ++ [set_el (write c empty_el) (set_type (rank c) new_CssBuilder)])).
  { intros m Hm. unfold pbind, new. now apply send_last. }
  pose proof (perform_new c) as Hp.
  destruct c; apply Hs; exact Hp.
Qed.

Lemma join_write_empty (c : category_call) :
  join "" (Object_values (write c empty_el)) = part c.
Proof.
  destruct c; unfold join, Object_values; cbn [write set_tag set_id set_class set_attr
    set_pseudoClass set_pseudoElement empty_el el_tag el_id el_class el_attr
    el_pseudoClass el_pseudoElement part];
    rewrite !concat_cons; cbn [String.concat];
    change ("" +:+ ?s) with s; rewrite ?append_assoc, ?append_nil_r; reflexivity.
Qed.

(** X1: every entry point of the facade succeeds on any store: it allocates
    a new builder at the next address, leaves every existing object as it
    was, and the new builder holds the rank and the single part of the
    call. *)
Theorem facade_allocates (c : category_call) (h : store) :
  exists b,
    facade c h = Some (Normal (length h), h ++ [b]) /\
    type b = rank c /\
    el b = write c empty_el /\
    combinedString b = "" /\
    stringify b = (Normal (part c), set_el empty_el b).
Proof.
  exists (set_el (write c empty_el) (set_type (rank c) new_CssBuilder)).
  split; [apply facade_run |].
  repeat (split; [reflexivity |]).
  rewrite stringify_plain by reflexivity.
  cbn [el set_el]. now rewrite join_write_empty.
Qed.

(** X2: a chain written against the facade is the same chain of method
    bodies run on one new builder: it ends as that chain ends, normally or
    by the same throw, with the builder at a new address holding the state
    the chain left, and with every existing object untouched.  A valid
    chain therefore returns its selector text from any store. *)
Theorem facade_chain_outcome (c : category_call) (cs : list category_call) (h : store) :
  facade_chain c cs h
  = Some (let (r, b) := bind (chain (c :: cs)) (fun _ => stringify) new_CssBuilder in
          (r, h ++ [b])) /\
  (valid_chain (c :: cs) = true ->
   exists b, facade_chain c cs h = Some (Normal (selector_text (c :: cs)), h ++ [b]) /\
             spent b).
Proof.
  assert (Heq : facade_chain c cs h
    = Some (let (r, b) := bind (chain (c :: cs)) (fun _ => stringify) new_CssBuilder in
            (r, h ++ [b]))).
  { unfold facade_chain. unfold pbind at 1. rewrite facade_run.
    unfold pbind. rewrite sends_last.
    cbn [chain]. unfold bind. rewrite perform_new.
    destruct (chain cs _) as [[[]|e] b1]; [| reflexivity].
    rewrite call_last. now destruct (stringify b1). }
  split; [exact Heq |].
  intros Hv. rewrite Heq. unfold bind.
  rewrite (chain_valid_state _ Hv), stringify_plain by reflexivity.
  rewrite join_state_after.
  eexists. split; [reflexivity |]. now apply spent_set_el.
Qed.

Lemma facade_chain_outcome_witness :
  valid_chain [Id "main"; Class "container"; Class "editable"] = true /\
  exists b,
    facade_chain (Id "main") [Class "container"; Class "editable"] [new_CssBuilder]
    = Some (Normal (selector_text [Id "main"; Class "container"; Class "editable"]),
            [new_CssBuilder] ++ [b]) /\
    spent b.
Proof.
  split; [reflexivity |].
  exact (proj2 (facade_chain_outcome (Id "main") [Class "container"; Class "editable"]
                  [new_CssBuilder]) eq_refl).
Defined.

(** ** The chains the builder accepts *)

Lemma nondecreasing_snoc_all (l : list Z) (x : Z) :
  nondecreasing (l ++ [x]) = true -> Forall (fun y => y <= x) l.
Proof.
  induction l as [|a l IH]; [constructor |].
  destruct l as [|b l].
  - cbn. rewrite andb_true_r. intros Hle%Z.leb_le. repeat constructor. exact Hle.
  - change (nondecreasing ((a :: b :: l) ++ [x]))
      with ((a <=? b) && nondecreasing ((b :: l) ++ [x])).
    intros [Hab%Z.leb_le Hrest]%andb_true_iff.
    pose proof (IH Hrest) as Hall. constructor; [| exact Hall].
    apply Forall_inv in Hall. cbn in Hall. lia.
Qed.

Lemma nondecreasing_snoc_intro (l : list Z) (x : Z) :
  nondecreasing l = true -> (forall y, last l = Some y -> y <= x) ->
  nondecreasing (l ++ [x]) = true.
Proof.
  induction l as [|a l IH]; [reflexivity |].
  destruct l as [|b l].
  - intros _ Hlast. cbn. rewrite andb_true_r. apply Z.leb_le. now apply Hlast.
  - change (nondecreasing (a :: b :: l)) with ((a <=? b) && nondecreasing (b :: l)).
    intros [Hab Hnd]%andb_true_iff Hlast.
    change (nondecreasing ((a :: b :: l) ++ [x]))
      with ((a <=? b) && nondecreasing ((b :: l) ++ [x])).
    rewrite Hab. apply IH; [exact Hnd |]. intros y Hy. apply Hlast. exact Hy.
Qed.

Lemma filter_rank_none (k : Z) (cs : list category_call) :
  Forall (fun y => y < k) (map rank cs) ->
  List.filter (fun x => rank x =? k) cs = [].
Proof.
  induction cs as [|c cs IH]; [reflexivity |].
  cbn [map List.filter]. intros Hall.
  pose proof (Forall_inv Hall) as Hc. cbn in Hc. apply Forall_inv_tail in Hall.
  rewrite (proj2 (Z.eqb_neq _ _)) by lia. now apply IH.
Qed.

(** Below the last rank of a chain that never decreases there is every
    earlier rank. *)
Lemma ranks_below_last (cs : list category_call) (k : Z) :
  nondecreasing (map rank cs) = true ->
  type (state_after cs) < k ->
  Forall (fun y => y < k) (map rank cs).
Proof.
  cbn [type state_after].
  destruct cs as [|c cs _] using rev_ind; [constructor |].
  rewrite map_app. cbn [map]. rewrite last_snoc. cbn. intros Hnd Hlt.
  apply nondecreasing_snoc_all in Hnd.
  apply Forall_app. split.
  - eapply Forall_impl; [exact Hnd |]. cbn. intros y Hy. lia.
  - repeat constructor. exact Hlt.
Qed.

Lemma at_most_once_snoc_intro (k : Z) (cs : list category_call) (c : category_call) :
  at_most_once k cs = true ->
  (rank c = k -> List.filter (fun x => rank x =? k) cs = []) ->
  at_most_once k (cs ++ [c]) = true.
Proof.
  unfold at_most_once. rewrite List.filter_app, length_app. cbn [List.filter].
  intros Hle%Nat.leb_le Hk. apply Nat.leb_le.
  destruct (rank c =? k) eqn:E.
  - apply Z.eqb_eq in E. rewrite (Hk E). cbn. lia.
  - cbn. lia.
Qed.

Lemma valid_chain_snoc_intro (cs : list category_call) (c : category_call) :
  valid_chain cs = true ->
  type (state_after cs) <= rank c ->
  ~ (rank c = type (state_after cs) /\ single (rank c)) ->
  valid_chain (cs ++ [c]) = true.
Proof.
  unfold valid_chain. rewrite !andb_true_iff, map_app. cbn [map].
  intros [[[Hnd H1] H2] H6] Hle Hn.
  assert (Hs : forall k, single k -> rank c = k ->
                 List.filter (fun x => rank x =? k) cs = []).
  { intros k Hk <-. apply filter_rank_none, ranks_below_last; [exact Hnd |].
    destruct (Z.eq_dec (rank c) (type (state_after cs))); [tauto | lia]. }
  repeat split.
  - apply nondecreasing_snoc_intro; [exact Hnd |].
    intros y Hy. cbn [type state_after] in Hle. now rewrite Hy in Hle.
  - apply at_most_once_snoc_intro; [exact H1 | apply Hs; left; reflexivity].
  - apply at_most_once_snoc_intro; [exact H2 | apply Hs; right; left; reflexivity].
  - apply at_most_once_snoc_intro; [exact H6 | apply Hs; right; right; reflexivity].
Qed.

Lemma perform_normal_inv (c : category_call) (b b' : CssBuilder) :
  perform c b = (Normal tt, b') ->
  type b <= rank c /\ ~ (rank c = type b /\ single (rank c)).
Proof.
  intros Hp. split.
  - destruct (Z.lt_ge_cases (rank c) (type b)) as [Hlt | Hge]; [| exact Hge].
    rewrite (perform_order c b Hlt) in Hp. discriminate.
  - intros [Heq Hs]. rewrite (perform_unique c b Heq Hs) in Hp. discriminate.
Qed.

Lemma chain_success_valid (cs : list category_call) (b : CssBuilder) :
  chain cs new_CssBuilder = (Normal tt, b) -> valid_chain cs = true.
Proof.
  revert b. induction cs as [|c cs IH] using rev_ind; intros b; [reflexivity |].
  rewrite chain_app. unfold bind at 1.
  destruct (chain cs new_CssBuilder) as [[[]|e] b1] eqn:Hc; [| discriminate].
  pose proof (IH b1 eq_refl) as Hv.
  rewrite (chain_valid_state cs Hv) in Hc. injection Hc as <-.
  cbn [chain]. unfold bind, ret.
  destruct (perform c (state_after cs)) as [[[]|e] b2] eqn:Hp; [| discriminate].
  intros _. apply perform_normal_inv in Hp as [Hle Hn].
  now apply valid_chain_snoc_intro.
Qed.

(** X3: a chain of category calls on a new builder runs to its end without
    throwing exactly when its ranks never decrease and the ranks 1, 2 and 6
    each occur at most once. *)
Theorem chain_succeeds_iff_valid (cs : list category_call) :
  (exists b, chain cs new_CssBuilder = (Normal tt, b)) <-> valid_chain cs = true.
Proof.
  split.
  - intros [b Hb]. exact (chain_success_valid cs b Hb).
  - intros Hv. exists (state_after cs). exact (chain_valid_state cs Hv).
Qed.

Lemma chain_succeeds_iff_valid_witness :
  valid_chain [Element "a"; Attr "href"; PseudoElement "after"] = true /\
  exists b, chain [Element "a"; Attr "href"; PseudoElement "after"] new_CssBuilder
            = (Normal tt, b).
Proof.
  split; [reflexivity |].
  exact (proj2 (chain_succeeds_iff_valid [Element "a"; Attr "href"; PseudoElement "after"])
           eq_refl).
Defined.

(** X4: when a chain goes wrong, it is the first call that breaks the rules
    that throws: the order error if its rank is below the rank before it,
    the uniqueness error if it repeats rank 1, 2 or 6.  The calls after it
    are not run, and the builder still renders the parts received before
    it. *)
Theorem first_offending_call (before after : list category_call) (c : category_call) :
  valid_chain before = true ->
  valid_chain (before ++ [c]) = false ->
  exists e b',
    chain (before ++ c :: after) new_CssBuilder = (Throw e, state_after before) /\
    (rank c < type (state_after before) /\ e = orderError new_CssBuilder \/
     rank c = type (state_after before) /\ single (rank c) /\
     e = uniqueError new_CssBuilder) /\
    stringify (state_after before) = (Normal (selector_text before), b').
Proof.
  intros Hv Hn.
  pose proof (chain_valid_state before Hv) as Hc.
  destruct (perform c (state_after before)) as [[[]|e] b1] eqn:Hp.
  - apply perform_normal_inv in Hp as [Hle Hne].
    rewrite (valid_chain_snoc_intro before c Hv Hle Hne) in Hn. discriminate.
  - apply perform_throw_inv in Hp as Hi. destruct Hi as [-> Hwhy].
    exists e, (set_el empty_el (state_after before)).
    split; [| split].
    + rewrite chain_app. unfold bind at 1. rewrite Hc.
      cbn [chain]. unfold bind. now rewrite Hp.
    + exact Hwhy.
    + rewrite stringify_plain by reflexivity. now rewrite join_state_after.
Qed.

Lemma first_offending_call_witness :
  (valid_chain [Class "a"] = true /\ valid_chain ([Class "a"] ++ [Id "b"]) = false) /\
  exists e b',
    chain ([Class "a"] ++ Id "b" :: [Attr "href"]) new_CssBuilder
    = (Throw e, state_after [Class "a"]) /\
    (rank (Id "b") < type (state_after [Class "a"]) /\ e = orderError new_CssBuilder \/
     rank (Id "b") = type (state_after [Class "a"]) /\ single (rank (Id "b")) /\
     e = uniqueError new_CssBuilder) /\
    stringify (state_after [Class "a"]) = (Normal (selector_text [Class "a"]), b').
Proof.
  split; [split; reflexivity |].
  exact (first_offending_call [Class "a"] [Attr "href"] (Id "b") eq_refl eq_refl).
Defined.

(** ** Rendering follows the order of the calls *)

Lemma category_above (cs : list category_call) (k : Z) :
  nondecreasing (map rank cs) = true ->
  type (state_after cs) < k ->
  String.concat "" (category k cs) = "".
Proof.
  intros Hnd Hlt. unfold category.
  now rewrite (filter_rank_none k cs (ranks_below_last cs k Hnd Hlt)).
Qed.

Lemma selector_text_snoc (cs : list category_call) (c : category_call) :
  nondecreasing (map rank (cs ++ [c])) = true ->
  selector_text (cs ++ [c]) = selector_text cs +:+ part c.
Proof.
  rewrite map_app. cbn [map]. intros Hnd.
  apply nondecreasing_snoc in Hnd as [Hnd Hlast].
  assert (Hle : type (state_after cs) <= rank c).
  { cbn [type state_after]. destruct (last (map rank cs)) as [y|]; cbn.
    - now apply Hlast.
    - pose proof (rank_range c). lia. }
  pose proof (fun k => category_above cs k Hnd) as Habove.
  unfold selector_text. rewrite !concat_app, !category_snoc.
  destruct c; cbn [rank Z.eqb Pos.eqb part] in *;
    rewrite ?(Habove 2), ?(Habove 3), ?(Habove 4), ?(Habove 5), ?(Habove 6) by lia;
    change ("" +:+ ?s) with s;
    rewrite ?append_nil_r, ?append_assoc; reflexivity.
Qed.

Lemma selector_text_in_order (cs : list category_call) :
  nondecreasing (map rank cs) = true ->
  selector_text cs = String.concat "" (map part cs).
Proof.
  induction cs as [|c cs IH] using rev_ind; [reflexivity |].
  intros Hnd. rewrite (selector_text_snoc cs c Hnd).
  rewrite map_app, concat_app. cbn [map String.concat].
  rewrite map_app in Hnd. apply nondecreasing_snoc in Hnd as [Hnd _].
  now rewrite (IH Hnd).
Qed.

(** X5: for a valid chain the selector is the parts of the calls, each with
    its prefix, written one after the other in the order of the calls. *)
Theorem valid_chain_renders_in_call_order (cs : list category_call) :
  valid_chain cs = true ->
  exists b', bind (chain cs) (fun _ => stringify) new_CssBuilder
             = (Normal (String.concat "" (map part cs)), b').
Proof.
  intros Hv. unfold bind. rewrite (chain_valid_state cs Hv).
  rewrite stringify_plain by reflexivity. rewrite join_state_after.
  unfold valid_chain in Hv. rewrite !andb_true_iff in Hv.
  destruct Hv as [[[Hnd _] _] _].
  rewrite (selector_text_in_order cs Hnd). eexists. reflexivity.
Qed.

Lemma valid_chain_renders_in_call_order_witness :
  valid_chain [Element "a"; Class "x"; Class "y"; PseudoClass "hover"] = true /\
  exists b', bind (chain [Element "a"; Class "x"; Class "y"; PseudoClass "hover"])
               (fun _ => stringify) new_CssBuilder
             = (Normal "a.x.y:hover", b').
Proof.
  split; [reflexivity |].
  exact (valid_chain_renders_in_call_order
           [Element "a"; Class "x"; Class "y"; PseudoClass "hover"] eq_refl).
Defined.

(** ** What every reachable builder satisfies *)



Lemma unused_above_write (c : category_call) (b : CssBuilder) :
  type b <= rank c -> unused_above b ->
  unused_above (set_el (write c (el b)) (set_type (rank c) b)).
Proof.
  unfold unused_above. intros Hle (H1 & H2 & H3 & H4 & H5 & H6).
  destruct c; cbn in *; repeat split; intros Hlt; try lia;
    (apply H1 || apply H2 || apply H3 || apply H4 || apply H5 || apply H6); lia.
Qed.

Lemma reachable_facts (b : CssBuilder) :
  reachable b ->
  0 <= type b <= 6 /\
  uniqueError b = uniqueError new_CssBuilder /\
  orderError b = orderError new_CssBuilder /\
  unused_above b.
Proof.
  induction 1 as [| c b Hb IH | b Hb IH | s b Hb IH].
  - repeat split; cbn; try lia; reflexivity.
  - destruct IH as (Ht & Hu & Ho & Ha). rewrite perform_eq.
    destruct (rank c <? type b) eqn:E1; [cbn [snd]; tauto |].
    destruct ((rank c =? type b) && includes [1; 2; 6] (rank c)); [cbn [snd]; tauto |].
    apply Z.ltb_ge in E1. pose proof (rank_range c).
    cbn [snd]. split; [cbn; lia |]. split; [exact Hu |]. split; [exact Ho |].
    now apply unused_above_write.
  - destruct IH as (Ht & Hu & Ho & Ha). rewrite stringify_eq.
    destruct (truthy (combinedString b)); cbn [snd].
    + tauto.
    + split; [exact Ht |]. split; [exact Hu |]. split; [exact Ho |].
      unfold unused_above. cbn. tauto.
  - exact IH.
Qed.

(** X6: whatever calls a builder has taken since its construction, its rank
    is between 0 and 6, its two error messages are the ones the constructor
    set, and the fields of the categories above its rank are empty.  So a
    throw always carries one of the two messages, and an accepted
    [pseudoElement(v)] leaves exactly ["::" + v] in its field although the
    method appends. *)
Theorem reachable_invariant (b : CssBuilder) :
  reachable b ->
  (0 <= type b <= 6 /\
   uniqueError b = uniqueError new_CssBuilder /\
   orderError b = orderError new_CssBuilder /\
   unused_above b) /\
  (forall c e b', perform c b = (Throw e, b') ->
     e = orderError new_CssBuilder \/ e = uniqueError new_CssBuilder) /\
  (forall v b', perform (PseudoElement v) b = (Normal tt, b') ->
     el_pseudoElement (el b') = "::" +:+ v).
Proof.
  intros Hr. pose proof (reachable_facts b Hr) as Hf.
  split; [exact Hf |]. destruct Hf as (Ht & Hu & Ho & Ha). split.
  - intros c e b' Hp.
    apply perform_throw_inv in Hp as [_ [[_ ->] | (_ & _ & ->)]]; auto.
  - intros v b' Hp. pose proof (perform_normal_inv _ _ _ Hp) as [Hle Hn].
    rewrite perform_pass in Hp by assumption. injection Hp as <-.
    cbn in Hle, Hn. assert (Hlt : type b < 6).
    { destruct (Z.eq_dec (type b) 6) as [E | E]; [| lia].
      exfalso. apply Hn. split; [now symmetry |]. right; right; reflexivity. }
    destruct Ha as (_ & _ & _ & _ & _ & H6). cbn. now rewrite (H6 Hlt).
Qed.

Lemma reachable_invariant_witness :
  reachable (snd (stringify (snd (perform (PseudoClass "hover") new_CssBuilder)))) /\
  forall v b',
    perform (PseudoElement v)
      (snd (stringify (snd (perform (PseudoClass "hover") new_CssBuilder))))
    = (Normal tt, b') ->
    el_pseudoElement (el b') = "::" +:+ v.
Proof.
  assert (Hr : reachable (snd (stringify (snd (perform (PseudoClass "hover")
                                                 new_CssBuilder))))).
  { apply reachable_stringify, reachable_perform, reachable_new. }
  split; [exact Hr |].
  exact (proj2 (proj2 (reachable_invariant _ Hr))).
Defined.



(** ** Category calls on a combined builder *)

Lemma perform_set_combinedString (c : category_call) (s : string) (b : CssBuilder) :
  perform c (set_combinedString s b)
  = (fst (perform c b), set_combinedString s (snd (perform c b))).
Proof.
  rewrite !perform_eq. cbn [type orderError uniqueError set_combinedString].
  destruct (rank c <? type b); [reflexivity |].
  destruct ((rank c =? type b) && includes [1; 2; 6] (rank c)); reflexivity.
Qed.

Lemma chain_set_combinedString (cs : list category_call) (s : string) (b : CssBuilder) :
  chain cs (set_combinedString s b)
  = (fst (chain cs b), set_combinedString s (snd (chain cs b))).
Proof.
  revert b. induction cs as [|c cs IH]; intros b; [reflexivity |].
  cbn [chain]. unfold bind. rewrite perform_set_combinedString.
  destruct (perform c b) as [[[]|e] b1]; cbn [fst snd]; [apply IH | reflexivity].
Qed.

Section Combined.
Local Open Scope prog_scope.

(** X8: category calls on the builder that [combine] returned are accepted
    like on a new builder, but the next [stringify()] returns the combined
    text alone; the parts of those calls are returned by the [stringify()]
    after it. *)
Theorem combined_builder_then_parts (h : store) (a b : loc) (c : string)
    (cs : list category_call) :
  (a < length h)%nat -> (b < length h)%nat -> valid_chain cs = true ->
  exists sa h1 sb h2 h',
    call a stringify h = Some (Normal sa, h1) /\
    call b stringify h1 = Some (Normal sb, h2) /\
    (r <- cssSelectorBuilder.combine a c b ;;
     r <- sends r cs ;;
     first <- call r stringify ;;
     second <- call r stringify ;;
     pret (first, second)) h
    = Some (Normal (sa +:+ " " +:+ c +:+ " " +:+ sb, selector_text cs), h').
Proof.
  intros Ha Hb Hv.
  render a h sa h1 H1. render b h1 sb h2 H2.
  exists sa, h1, sb, h2. eexists.
  repeat (split; [eassumption |]).
  unfold pbind at 1. rewrite (combine_run _ _ _ _ _ c _ _ H1 H2).
  replace (length h) with (length h2) by lia.
  unfold pbind at 1. rewrite sends_last, chain_set_combinedString.
  rewrite (chain_valid_state cs Hv). cbn [fst snd].
  unfold pbind at 1. rewrite call_last, stringify_eq.
  cbn [combinedString set_combinedString]. rewrite truthy_separated. cbn [fst snd].
  unfold pbind at 1. rewrite call_last, stringify_plain by reflexivity.
  cbn [fst snd el set_combinedString]. rewrite join_state_after.
  reflexivity.
Qed.

Lemma combined_builder_then_parts_witness :
  let h := [snd (chain [Element "ul"] new_CssBuilder);
            snd (chain [Element "li"] new_CssBuilder)] in
  ((0 < length h)%nat /\ (1 < length h)%nat /\ valid_chain [Class "x"] = true) /\
  exists sa h1 sb h2 h',
    call 0%nat stringify h = Some (Normal sa, h1) /\
    call 1%nat stringify h1 = Some (Normal sb, h2) /\
    (r <- cssSelectorBuilder.combine 0%nat ">" 1%nat ;;
     r <- sends r [Class "x"] ;;
     first <- call r stringify ;;
     second <- call r stringify ;;
     pret (first, second)) h
    = Some (Normal (sa +:+ " " +:+ ">" +:+ " " +:+ sb, selector_text [Class "x"]), h').
Proof.
  intros h. split; [repeat split; cbn; lia |].
  apply (combined_builder_then_parts h 0%nat 1%nat ">" [Class "x"]);
    [cbn; lia | cbn; lia | reflexivity].
Defined.

(** X9: [combine] as a method of any builder, also of one of its own
    operands: it never throws, returns the builder it was called on,
    replaces whatever combined text that builder held, allocates nothing
    and touches no object but the receiver and the two operands; the
    receiver then renders the left text, the combinator between two spaces,
    and the right text. *)
Theorem combine_on_any_receiver (h : store) (this a b : loc) (c : string) :
  (this < length h)%nat -> (a < length h)%nat -> (b < length h)%nat ->
  exists sa h1 sb h2 h' h'',
    call a stringify h = Some (Normal sa, h1) /\
    call b stringify h1 = Some (Normal sb, h2) /\
    combine this a c b h = Some (Normal this, h') /\
    length h' = length h /\
    (forall x, x <> this -> x <> a -> x <> b -> h' !! x = h !! x) /\
    call this stringify h'
    = Some (Normal (sa +:+ " " +:+ c +:+ " " +:+ sb), h'').
Proof.
  intros Ht Ha Hb.
  render a h sa h1 H1. render b h1 sb h2 H2.
  destruct (lookup_lt_is_Some_2 h2 this ltac:(lia)) as [bt Hbt].
  set (joined := sa +:+ " " +:+ c +:+ " " +:+ sb).
  exists sa, h1, sb, h2, (<[this := set_combinedString joined bt]> h2).
  eexists.
  split; [exact H1 |]. split; [exact H2 |].
  split.
  { unfold combine, pbind, pret. rewrite H1, H2.
    now rewrite (call_lookup this _ h2 bt Hbt). }
  split; [rewrite length_insert; lia |].
  split.
  { intros x Hxt Hxa Hxb. rewrite list_lookup_insert_ne by congruence.
    rewrite (call_frame _ x _ _ _ _ H2 Hxb). exact (call_frame _ x _ _ _ _ H1 Hxa). }
  rewrite (call_lookup this stringify _ (set_combinedString joined bt))
    by (apply list_lookup_insert_eq; lia).
  rewrite stringify_eq. cbn [combinedString set_combinedString].
  unfold joined at 1. rewrite truthy_separated. reflexivity.
Qed.

Lemma combine_on_any_receiver_witness :
  let h := [snd (chain [Element "ul"] new_CssBuilder);
            snd (chain [Element "li"] new_CssBuilder)] in
  ((0 < length h)%nat /\ (0 < length h)%nat /\ (1 < length h)%nat) /\
  exists sa h1 sb h2 h' h'',
    call 0%nat stringify h = Some (Normal sa, h1) /\
    call 1%nat stringify h1 = Some (Normal sb, h2) /\
    combine 0%nat 0%nat ">" 1%nat h = Some (Normal 0%nat, h') /\
    length h' = length h /\
    (forall x, x <> 0%nat -> x <> 0%nat -> x <> 1%nat -> h' !! x = h !! x) /\
    call 0%nat stringify h' = Some (Normal (sa +:+ " " +:+ ">" +:+ " " +:+ sb), h'').
Proof.
  intros h. split; [repeat split; cbn; lia |].
  apply (combine_on_any_receiver h 0%nat 0%nat 1%nat ">"); cbn; lia.
Defined.

End Combined.

(** ** A rendered builder goes on from its rank *)

(** X10: after [stringify()] a builder without combined text accepts every
    category call that its rank allows (the same rank for class, attr and
    pseudoClass, or any higher rank), and the next [stringify()] returns
    the part of that call alone. *)
Theorem rendered_builder_continues (b : CssBuilder) (c : category_call) :
  combinedString b = "" ->
  type b <= rank c -> ~ (rank c = type b /\ single (rank c)) ->
  exists s b1 b2 b3,
    stringify b = (Normal s, b1) /\
    perform c b1 = (Normal tt, b2) /\
    stringify b2 = (Normal (part c), b3).
Proof.
  intros Hc Hle Hn.
  exists (join "" (Object_values (el b))), (set_el empty_el b),
    (set_el (write c empty_el) (set_type (rank c) (set_el empty_el b))).
  eexists.
  split; [now apply stringify_plain |].
  split; [now apply perform_pass |].
  rewrite stringify_plain by exact Hc.
  cbn [el set_el]. now rewrite join_write_empty.
Qed.

Lemma rendered_builder_continues_witness :
  let b := snd (chain [Element "a"; Class "x"] new_CssBuilder) in
  (combinedString b = "" /\ type b <= rank (Class "y") /\
   ~ (rank (Class "y") = type b /\ single (rank (Class "y")))) /\
  exists s b1 b2 b3,
    stringify b = (Normal s, b1) /\
    perform (Class "y") b1 = (Normal tt, b2) /\
    stringify b2 = (Normal (part (Class "y")), b3).
Proof.
  intros b.
  assert (Hle : type b <= rank (Class "y")) by (cbn; lia).
  assert (Hn : ~ (rank (Class "y") = type b /\ single (rank (Class "y")))).
  { intros [_ Hs]. unfold single in Hs. cbn in Hs. lia. }
  split; [split; [reflexivity | split; assumption] |].
  exact (rendered_builder_continues b (Class "y") eq_refl Hle Hn).
Defined.

(** ** The same builder as both operands *)

(** X11: when one builder without combined text is passed as both operands
    of [combine], the left render empties it before the right one is taken:
    the result is its text, a space, the combinator, a space, and nothing
    after it. *)
Theorem combine_same_operand (h : store) (a : loc) (c : string) (ba : CssBuilder) :
  h !! a = Some ba -> combinedString ba = "" ->
  exists h',
    pbind (cssSelectorBuilder.combine a c a) (fun r => call r stringify) h
    = Some (Normal (join "" (Object_values (el ba)) +:+ " " +:+ c +:+ " "), h').
Proof.
  intros Ha Hc.
  pose proof (lookup_lt_Some _ _ _ Ha) as La.
  pose proof (call_stringify_plain h a ba Ha Hc) as H1.
  assert (H2 : call a stringify (<[a := set_el empty_el ba]> h)
               = Some (Normal "", <[a := set_el empty_el ba]> h)).
  { apply (call_stringify_spent _ _ (set_el empty_el ba)).
    - now apply list_lookup_insert_eq.
    - now apply spent_set_el. }
  eexists. exact (combine_stringify_run _ _ _ _ _ c _ _ H1 H2).
Qed.

Lemma combine_same_operand_witness :
  let ba := snd (chain [Element "li"] new_CssBuilder) in
  ([ba] !! 0%nat = Some ba /\ combinedString ba = "") /\
  exists h',
    pbind (cssSelectorBuilder.combine 0%nat "+" 0%nat) (fun r => call r stringify) [ba]
    = Some (Normal "li + ", h').
Proof.
  intros ba. split; [split; reflexivity |].
  exact (combine_same_operand [ba] 0%nat "+" ba eq_refl eq_refl).
Defined.
